(** * API-key validation and usage accounting: a shallow embedding

  The development follows the sources of the dashboard:
  - [generateApiKey], from the module imported as [@/app/utils/apiKeyUtils];
  - the [api_keys] table and its trigger, from the SQL schema;
  - [POST] of [app/api/validate-key/route.js], the validation endpoint;
  - [POST] of [app/api/github-summarizer/route.js], the gated endpoint;
  - [maskApiKey] and [calculateTotalUsage], from the same module as
    [generateApiKey];
  - [validateApiKey] and [summarizeGithubRepo], the browser-side callers
    of the two endpoints;
  - [createApiKey], [updateApiKey] and [deleteApiKey] of
    [app/hooks/useApiKeys.js].

  Strings are sequences of code units below 256 (the Latin-1 part of a
  JavaScript string).  The two counters of a record are INTEGER columns,
  on which the arithmetic of JavaScript numbers is exact; they are
  integers of [Z] here.  A route handler is a tree whose nodes are the
  [await]ed store calls, so that the same definition serves for one
  request run alone and for two requests interleaved at their
  suspension points. *)

From Stdlib Require Import ZArith List String Ascii Bool Lia PeanoNat.
From Stdlib Require Import Permutation DecimalString.
Import ListNotations.

Local Open Scope string_scope.
Local Open Scope nat_scope.

(* ------------------------------------------------------------------ *)
(** ** JavaScript string primitives used by the sources *)

Module JsString.

Definition charCode (c : ascii) : nat := nat_of_ascii c.

(** [WhiteSpace] and [LineTerminator] code units below 256:
    TAB, LF, VT, FF, CR, SPACE and NBSP. *)
Definition is_white_space (c : ascii) : bool :=
  let n := charCode c in
  ((9 <=? n) && (n <=? 13)) || (n =? 32) || (n =? 160).

Fixpoint trimStart (s : string) : string :=
  match s with
  | EmptyString => EmptyString
  | String c s' => if is_white_space c then trimStart s' else s
  end.

Fixpoint trimEnd (s : string) : string :=
  match s with
  | EmptyString => EmptyString
  | String c s' =>
      match trimEnd s' with
      | EmptyString => if is_white_space c then EmptyString
                       else String c EmptyString
      | t => String c t
      end
  end.

(** [String.prototype.trim] *)
Definition trim (s : string) : string := trimEnd (trimStart s).

(** Simple case mapping of one code unit: A-Z, and the Latin-1 capitals
    U+00C0..U+00DE without the multiplication sign U+00D7. *)
Definition lower_char (c : ascii) : ascii :=
  let n := charCode c in
  if ((65 <=? n) && (n <=? 90))
     || ((192 <=? n) && (n <=? 222) && negb (n =? 215))
  then ascii_of_nat (n + 32) else c.

(** [String.prototype.toLowerCase] *)
Fixpoint toLowerCase (s : string) : string :=
  match s with
  | EmptyString => EmptyString
  | String c s' => String (lower_char c) (toLowerCase s')
  end.

(** [s.startsWith(p)] *)
Fixpoint startsWith (s p : string) {struct p} : bool :=
  match p with
  | EmptyString => true
  | String a p' =>
      match s with
      | EmptyString => false
      | String b s' => Ascii.eqb a b && startsWith s' p'
      end
  end.

(** [s.includes(p)] *)
Fixpoint includes (s p : string) : bool :=
  startsWith s p ||
  match s with
  | EmptyString => false
  | String _ s' => includes s' p
  end.

Fixpoint drop (n : nat) (s : string) : string :=
  match n, s with
  | O, _ => s
  | S _, EmptyString => EmptyString
  | S n', String _ s' => drop n' s'
  end.

Fixpoint take (n : nat) (s : string) : string :=
  match n, s with
  | O, _ => EmptyString
  | S _, EmptyString => EmptyString
  | S n', String c s' => String c (take n' s')
  end.

(** [s.substring(i, j)]: both indices are clamped to the length and
    swapped when [i > j]. *)
Definition substring (i j : nat) (s : string) : string :=
  let lo := Nat.min i j in
  let hi := Nat.max i j in
  take (hi - lo) (drop lo s).

End JsString.

(* ------------------------------------------------------------------ *)
(** ** Key generator ([app/utils/apiKeyUtils.js]) *)

Module KeyGen.
Import JsString.

(** One outcome of [Math.random()], given by the base-36 digits that
    follow the radix point in its rendering; no digit at all stands for
    the number 0. *)
Definition draw := string.

(** The digit of value [v < 36]. *)
Definition digit36 (v : nat) : ascii :=
  if v <? 10 then ascii_of_nat (48 + v) else ascii_of_nat (87 + v).

(** The draw 1/2 = 18/36. *)
Definition one_half : draw := String (digit36 18) EmptyString.

(** [x.toString(36)] for a number [x] of [[0,1)]. *)
Definition toString36 (d : draw) : string :=
  match d with
  | EmptyString => "0"
  | _ => ("0." ++ d)%string
  end.

Definition keyPrefix (name : string) : string :=
  if includes (toLowerCase name) "prod" then "pk_live_" else "pk_dev_".

Definition randomKey (d1 d2 : draw) : string :=
  (substring 2 18 (toString36 d1) ++ substring 2 18 (toString36 d2))%string.

Definition generateApiKey (name : string) (d1 d2 : draw) : string :=
  let prefix := keyPrefix name in
  let randomKey := randomKey d1 d2 in
  (prefix ++ randomKey)%string.

(** The specification's wording: [name] contains the letters p, r, o, d
    in a row, each in either case. *)
Definition either_case (lower upper c : ascii) : Prop :=
  c = lower \/ c = upper.

Definition contains_prod_any_casing (name : string) : Prop :=
  exists pre c1 c2 c3 c4 post,
    name = (pre ++ String c1 (String c2 (String c3 (String c4 post))))%string
    /\ either_case "p" "P" c1 /\ either_case "r" "R" c2
    /\ either_case "o" "O" c3 /\ either_case "d" "D" c4.

End KeyGen.

(* ------------------------------------------------------------------ *)
(** ** JSON values: request bodies and response bodies *)

Module Json.

#[local] Unset Elimination Schemes.

Inductive value : Type :=
| JNull
| JBool (b : bool)
| JNum (n : Z)
| JStr (s : string)
| JArr (items : list value)
| JObj (fields : list (string * value)).

#[local] Set Elimination Schemes.

(** Own property [k] of a parsed object: [JSON.parse] keeps the last
    binding of a repeated name.  [None] is [undefined]. *)
Fixpoint property (fields : list (string * value)) (k : string)
  : option value :=
  match fields with
  | [] => None
  | (k', v) :: rest =>
      match property rest k with
      | Some w => Some w
      | None => if String.eqb k' k then Some v else None
      end
  end.

(** [const { k } = v]: [None] when the destructuring throws (on
    [null]); a value that is not an object has no such property. *)
Definition destructure (v : value) : option (string -> option value) :=
  match v with
  | JNull => None
  | JObj fields => Some (property fields)
  | _ => Some (fun _ => None)
  end.

(** [!!v] *)
Definition truthy (v : option value) : bool :=
  match v with
  | None | Some JNull => false
  | Some (JBool b) => b
  | Some (JNum n) => negb (n =? 0)%Z
  | Some (JStr s) => negb (String.eqb s "")
  | Some (JArr _) | Some (JObj _) => true
  end.

(** [typeof v === 'string'] *)
Definition is_string (v : option value) : bool :=
  match v with
  | Some (JStr _) => true
  | _ => false
  end.

(** A nullable integer column as a JSON value. *)
Definition of_nullable (n : option Z) : value :=
  match n with
  | Some z => JNum z
  | None => JNull
  end.

End Json.

(** [NextResponse.json(body, { status })] *)
Record response : Type := mkResponse {
status_code : nat;
body : Json.value
}.

(** What a request leaves behind: its response and the lines it wrote
  with [console.error] (label and error message). *)
Record outcome : Type := mkOutcome {
resp : response;
console : list (string * string)
}.

(* ------------------------------------------------------------------ *)
(** ** The key store ([supabase-schema.sql]) and the calls made on it *)

Module Store.
Import Json.

(** The values the CHECK constraint on [status] lists. *)
Inductive key_status : Type := active | inactive.

Definition status_eqb (a b : key_status) : bool :=
  match a, b with
  | active, active | inactive, inactive => true
  | _, _ => false
  end.

Definition status_text (s : key_status) : string :=
  match s with
  | active => "active"
  | inactive => "inactive"
  end.

(** One row of [api_keys]; the two counters are nullable INTEGER
    columns. *)
Record api_key : Type := mkApiKey {
  id : string;
  name : string;
  key_value : string;
  status : key_status;
  usage_count : option Z;
  usage_limit : option Z;
  created_at : string;
  updated_at : string
}.

Definition table := list api_key.

(** PRIMARY KEY on [id], UNIQUE on [key_value]. *)
Definition unique_ids (t : table) : Prop := NoDup (map id t).
Definition unique_key_values (t : table) : Prop := NoDup (map key_value t).

(** [ToNumber] of a column value: [null] counts as 0. *)
Definition to_number (n : option Z) : Z :=
  match n with
  | Some z => z
  | None => 0%Z
  end.

(** [!!n] for a column value. *)
Definition nonzero (n : option Z) : bool :=
  match n with
  | Some z => negb (z =? 0)%Z
  | None => false
  end.

Record pg_error : Type := mkError {
  code : string;
  message : string
}.

(** What [await supabase...] resolves to. *)
Record reply : Type := mkReply {
  data : option api_key;
  error : option pg_error
}.

Inductive query : Type :=
(** [.select('*').eq('key_value', k).eq('status', 'active').single()] *)
| SelectActiveSingle (k : string)
(** [.update({ usage_count, updated_at }).eq('id', i)] *)
| UpdateUsage (i : string) (new_count : Z) (new_updated_at : string).

(** What the outside world decides for one call: whether it fails
    (network, time-out, a value out of the column's range, ...) and the
    store's [NOW()]. *)
Record call_env : Type := mkEnv {
  fault : option pg_error;
  db_now : string
}.

Definition oracle := nat -> call_env.

Definition no_rows : pg_error :=
  {| code := "PGRST116";
     message := "JSON object requested, multiple (or no) rows returned" |}.

Definition active_matches (t : table) (k : string) : list api_key :=
  filter (fun r => String.eqb (key_value r) k
                   && status_eqb (status r) active) t.

(** [.single()] wants exactly one row. *)
Definition select_active_single (t : table) (k : string) : reply :=
  match active_matches t k with
  | [r] => {| data := Some r; error := None |}
  | _ => {| data := None; error := Some no_rows |}
  end.

(** The key [k] validates to the record [r]: the look-up both routes
    make finds [r] and nothing else. *)
Definition validates_to (t : table) (k : string) (r : api_key) : Prop :=
  active_matches t k = [r].

(** Trigger [update_api_keys_updated_at], BEFORE UPDATE FOR EACH ROW. *)
Definition update_updated_at_column (now : string) (new : api_key)
  : api_key :=
  {| id := id new; name := name new; key_value := key_value new;
     status := status new; usage_count := usage_count new;
     usage_limit := usage_limit new; created_at := created_at new;
     updated_at := now |}.

Definition set_usage (new_count : Z) (new_updated_at : string)
           (r : api_key) : api_key :=
  {| id := id r; name := name r; key_value := key_value r;
     status := status r; usage_count := Some new_count;
     usage_limit := usage_limit r; created_at := created_at r;
     updated_at := new_updated_at |}.

Definition update_usage (now : string) (i : string) (new_count : Z)
           (new_updated_at : string) (t : table) : table :=
  map (fun r => if String.eqb (id r) i
                then update_updated_at_column now
                       (set_usage new_count new_updated_at r)
                else r) t.

(** One call on the store.  A failed call changes nothing. *)
Definition exec (e : call_env) (q : query) (t : table) : reply * table :=
  match fault e with
  | Some err => ({| data := None; error := Some err |}, t)
  | None =>
      match q with
      | SelectActiveSingle k => (select_active_single t k, t)
      | UpdateUsage i c u =>
          ({| data := None; error := None |},
           update_usage (db_now e) i c u t)
      end
  end.

End Store.

(* ------------------------------------------------------------------ *)
(** ** Route handlers as trees of awaited store calls *)

Module Handler.
Import Store.

Inductive handler (R : Type) : Type :=
| Return (r : R)
| Await (q : query) (k : reply -> handler R).

Arguments Return {R} r.
Arguments Await {R} q k.

(** One request served alone: the [n]-th call of the run is answered
    under [o n]. *)
Fixpoint run {R : Type} (h : handler R) (o : oracle) (n : nat) (t : table)
  : R * table :=
  match h with
  | Return r => (r, t)
  | Await q k =>
      let '(rep, t') := exec (o n) q t in
      run (k rep) o (S n) t'
  end.

(** The store calls issued during that run, in order. *)
Fixpoint calls {R : Type} (h : handler R) (o : oracle) (n : nat)
         (t : table) : list query :=
  match h with
  | Return _ => []
  | Await q k =>
      let '(rep, t') := exec (o n) q t in
      q :: calls (k rep) o (S n) t'
  end.

(** The store calls a handler can issue, on some sequence of replies. *)
Inductive issues {R : Type} : handler R -> query -> Prop :=
| issues_here : forall q k, issues (Await q k) q
| issues_later : forall q k rep q', issues (k rep) q' ->
                                    issues (Await q k) q'.

(** Two requests in flight.  A handler runs without interruption
    between two [await]s, each store call is one statement, and the
    schedule says whose pending call is answered next. *)
Inductive turn : Type := First | Second.

Record pair (R : Type) : Type := mkPair {
  first : handler R;
  second : handler R;
  answered : nat;
  rows : table
}.

Arguments mkPair {R} first second answered rows.
Arguments first {R} p.
Arguments second {R} p.
Arguments answered {R} p.
Arguments rows {R} p.

Definition step_pair {R : Type} (o : oracle) (who : turn) (p : pair R)
  : pair R :=
  match who with
  | First =>
      match first p with
      | Return _ => p
      | Await q k =>
          let '(rep, t') := exec (o (answered p)) q (rows p) in
          mkPair (k rep) (second p) (S (answered p)) t'
      end
  | Second =>
      match second p with
      | Return _ => p
      | Await q k =>
          let '(rep, t') := exec (o (answered p)) q (rows p) in
          mkPair (first p) (k rep) (S (answered p)) t'
      end
  end.

Fixpoint run_pair {R : Type} (o : oracle) (sched : list turn) (p : pair R)
  : pair R :=
  match sched with
  | [] => p
  | who :: sched' => run_pair o sched' (step_pair o who p)
  end.

Definition finished {R : Type} (h : handler R) : option R :=
  match h with
  | Return r => Some r
  | Await _ _ => None
  end.

End Handler.

(* ------------------------------------------------------------------ *)
(** ** [app/api/validate-key/route.js] *)

Module ValidateKey.
Import JsString Json Store Handler.

Definition failure (st : nat) (msg : string) : response :=
  {| status_code := st;
     body := JObj [("valid", JBool false); ("error", JStr msg)] |}.

Definition key_data (data : api_key) : Json.value :=
  JObj [("id", JStr (id data));
        ("name", JStr (name data));
        ("status", JStr (status_text (status data)));
        ("usage_count", of_nullable (usage_count data));
        ("usage_limit", of_nullable (usage_limit data));
        ("created_at", JStr (created_at data));
        ("updated_at", JStr (updated_at data))].

(** The [catch] block. *)
Definition internal_error (thrown : string) : outcome :=
  {| resp := failure 500 "Internal server error";
     console := [("API validation error:", thrown)] |}.

(** STEPS 5 and 6, once the look-up has answered. *)
Definition after_lookup (r : reply) : handler outcome :=
  match error r with
  | Some err =>
      if String.eqb (code err) "PGRST116" then
        Return {| resp := failure 404 "Invalid API key"; console := [] |}
      else
        Return {| resp := failure 500 "Database error occurred";
                  console := [("Database error:", message err)] |}
  | None =>
      match data r with
      | None => Return (internal_error "TypeError")
      | Some data =>
          Return {| resp := {| status_code := 200;
                               body := JObj [("valid", JBool true);
                                             ("data", key_data data)] |};
                    console := [] |}
      end
  end.

(** [request_json] is what [await request.json()] gives, [None] when
    it rejects. *)
Definition POST (request_json : option Json.value) : handler outcome :=
  match request_json with
  | None => Return (internal_error "SyntaxError")
  | Some parsed =>
  match destructure parsed with
  | None => Return (internal_error "TypeError")
  | Some field =>
  let apiKey := field "apiKey" in
  if negb (truthy apiKey) || negb (is_string apiKey) then
    Return {| resp := failure 400 "API key is required and must be a string";
              console := [] |}
  else
  match apiKey with
  | Some (JStr apiKey) =>
  let trimmedApiKey := trim apiKey in
  if String.eqb trimmedApiKey "" then
    Return {| resp := failure 400 "API key cannot be empty";
              console := [] |}
  else
  Await (SelectActiveSingle trimmedApiKey) after_lookup
  | _ => Return (internal_error "TypeError") (* not reached: a string *)
  end
  end
  end.

End ValidateKey.

(* ------------------------------------------------------------------ *)
(** ** [app/api/github-summarizer/route.js] *)

Module GithubSummarizer.
Import JsString Json Store Handler.

Definition failure (st : nat) (msg : string) : response :=
  {| status_code := st;
     body := JObj [("success", JBool false); ("error", JStr msg)] |}.

Definition internal_error (thrown : string) : outcome :=
  {| resp := failure 500 "Internal server error";
     console := [("GitHub summarizer error:", thrown)] |}.

(** The class [[\w\-._]]. *)
Definition repo_char (c : ascii) : bool :=
  let n := charCode c in
  ((48 <=? n) && (n <=? 57)) || ((65 <=? n) && (n <=? 90))
  || ((97 <=? n) && (n <=? 122))
  || (n =? 95) || (n =? 45) || (n =? 46).

Fixpoint skip_repo_chars (s : string) : string :=
  match s with
  | EmptyString => EmptyString
  | String c s' => if repo_char c then skip_repo_chars s' else s
  end.

(** [/^https:\/\/github\.com\/[\w\-._]+\/[\w\-._]+/.test(s)]: the slash
    is outside the class, so the first run is the longest one. *)
Definition githubUrlPattern_test (s : string) : bool :=
  startsWith s "https://github.com/" &&
  match drop 19 s with
  | String c rest =>
      repo_char c &&
      match skip_repo_chars rest with
      | String "/" (String d _) => repo_char d
      | _ => false
      end
  | EmptyString => false
  end.

(** The two readings of the clock, [new Date().toISOString()]. *)
Record clock : Type := mkClock {
  summary_time : string;
  update_time : string
}.

Definition summary_of (trimmedGithubUrl timestamp : string)
           (apiKeyData : api_key) : Json.value :=
  JObj [("repository", JStr trimmedGithubUrl);
        ("summary", JStr "This is a placeholder summary. Actual GitHub summarization logic would be implemented here.");
        ("timestamp", JStr timestamp);
        ("processed_by", JStr (name apiKeyData))].

Definition success (summary : Json.value) (apiKeyData : api_key)
  : response :=
  {| status_code := 200;
     body := JObj [("success", JBool true);
                   ("data", summary);
                   ("usage",
                    JObj [("current",
                           JNum (to_number (usage_count apiKeyData) + 1));
                          ("limit",
                           of_nullable (usage_limit apiKeyData))])] |}.

(** STEP 7: [usage_limit && usage_count >= usage_limit]. *)
Definition limit_reached (apiKeyData : api_key) : bool :=
  nonzero (usage_limit apiKeyData)
  && (to_number (usage_limit apiKeyData)
      <=? to_number (usage_count apiKeyData))%Z.

(** STEPS 6 to 11, once the look-up has answered. *)
Definition after_lookup (now : clock) (trimmedGithubUrl : string)
           (r : reply) : handler outcome :=
  match error r with
  | Some apiKeyError =>
      if String.eqb (code apiKeyError) "PGRST116" then
        Return {| resp := failure 401 "Invalid API key"; console := [] |}
      else
        Return {| resp := failure 500 "Database error occurred";
                  console := [("Database error:", message apiKeyError)] |}
  | None =>
      match data r with
      | None => Return (internal_error "TypeError")
      | Some apiKeyData =>
          if limit_reached apiKeyData then
            Return {| resp := failure 429 "API key usage limit exceeded";
                      console := [] |}
          else if negb (githubUrlPattern_test trimmedGithubUrl) then
            Return {| resp := failure 400 "Invalid GitHub URL format. Must be a valid GitHub repository URL.";
                      console := [] |}
          else
            let summary :=
              summary_of trimmedGithubUrl (summary_time now) apiKeyData in
            Await (UpdateUsage (id apiKeyData)
                               (to_number (usage_count apiKeyData) + 1)
                               (update_time now))
                  (fun u =>
                     Return {| resp := success summary apiKeyData;
                               console :=
                                 match error u with
                                 | Some updateError =>
                                     [("Failed to update usage count:",
                                       message updateError)]
                                 | None => []
                                 end |})
      end
  end.

Definition POST (now : clock) (request_json : option Json.value)
  : handler outcome :=
  match request_json with
  | None => Return (internal_error "SyntaxError")
  | Some parsed =>
  match destructure parsed with
  | None => Return (internal_error "TypeError")
  | Some field =>
  let apiKey := field "apiKey" in
  let githubUrl := field "githubUrl" in
  if negb (truthy apiKey) || negb (is_string apiKey) then
    Return {| resp := failure 400 "API key is required and must be a string";
              console := [] |}
  else if negb (truthy githubUrl) || negb (is_string githubUrl) then
    Return {| resp := failure 400 "GitHub URL is required and must be a string";
              console := [] |}
  else
  match apiKey, githubUrl with
  | Some (JStr apiKey), Some (JStr githubUrl) =>
  let trimmedApiKey := trim apiKey in
  let trimmedGithubUrl := trim githubUrl in
  if String.eqb trimmedApiKey "" then
    Return {| resp := failure 400 "API key cannot be empty";
              console := [] |}
  else if String.eqb trimmedGithubUrl "" then
    Return {| resp := failure 400 "GitHub URL cannot be empty";
              console := [] |}
  else
  Await (SelectActiveSingle trimmedApiKey)
        (after_lookup now trimmedGithubUrl)
  | _, _ => Return (internal_error "TypeError") (* not reached: strings *)
  end
  end
  end.

End GithubSummarizer.

(* ------------------------------------------------------------------ *)
(** ** A small world to run the routes in *)

Module Scenario.
Import Json Store Handler.

Definition record (count limit : option Z) (st : key_status) : api_key :=
  {| id := "7f3c"; name := "Production Key"; key_value := "pk_live_k1";
     status := st; usage_count := count; usage_limit := limit;
     created_at := "2024-01-01T00:00:00Z";
     updated_at := "2024-01-01T00:00:00Z" |}.

(** Every call succeeds, and the store's clock reads the same instant. *)
Definition calm : oracle :=
  fun _ => {| fault := None; db_now := "2024-06-01T12:00:00Z" |}.

(** The look-up succeeds and every later call times out. *)
Definition update_times_out : oracle :=
  fun n => match n with
           | O => calm 0
           | S _ => {| fault := Some {| code := "57014";
                                        message := "statement timeout" |};
                       db_now := "2024-06-01T12:00:00Z" |}
           end.

Definition now : GithubSummarizer.clock :=
  {| GithubSummarizer.summary_time := "2024-06-01T11:59:59.100Z";
     GithubSummarizer.update_time := "2024-06-01T11:59:59.200Z" |}.

Definition gated_fields (apiKey githubUrl : string)
  : list (string * Json.value) :=
  [("apiKey", JStr apiKey); ("githubUrl", JStr githubUrl)].

Definition gated_request (apiKey githubUrl : string) : option Json.value :=
  Some (JObj (gated_fields apiKey githubUrl)).

Definition key_fields (apiKey : string) : list (string * Json.value) :=
  [("apiKey", JStr apiKey)].

Definition repo : string := "https://github.com/rocq-prover/rocq".

Definition status_of (h : handler outcome) : option nat :=
  match finished h with
  | Some out => Some (status_code (resp out))
  | None => None
  end.

End Scenario.

(* ------------------------------------------------------------------ *)
(** ** Two gated requests for a record with one unit left *)

Module LastUnit.
Import Json Store Handler Scenario.

Definition fresh : api_key := record (Some 0%Z) (Some 1%Z) active.

(** A record after one more successful update under [calm]. *)
Definition counted_from (r : api_key) : api_key :=
  update_updated_at_column (db_now (calm 0))
    (set_usage (to_number (usage_count r) + 1)
               (GithubSummarizer.update_time now) r).

Definition counted : api_key := counted_from fresh.

Definition request : handler outcome :=
  GithubSummarizer.POST now (gated_request "pk_live_k1" repo).

(** The request after its look-up found [fresh]: its update is pending. *)
Definition passed : handler outcome :=
  GithubSummarizer.after_lookup now repo
    {| data := Some fresh; error := None |}.

Definition served : handler outcome :=
  Return {| resp := GithubSummarizer.success
                      (GithubSummarizer.summary_of
                         repo (GithubSummarizer.summary_time now) fresh)
                      fresh;
            console := [] |}.

Definition refused : handler outcome :=
  Return {| resp := GithubSummarizer.failure
                      429 "API key usage limit exceeded";
            console := [] |}.

Definition start : pair outcome := mkPair request request 0 [fresh].

(** The states the two requests can be in together. *)
Inductive reach : pair outcome -> Prop :=
| both_waiting n : reach (mkPair request request n [fresh])
| first_passed n : reach (mkPair passed request n [fresh])
| second_passed n : reach (mkPair request passed n [fresh])
| both_passed n : reach (mkPair passed passed n [fresh])
| first_served n : reach (mkPair served request n [counted])
| second_served n : reach (mkPair request served n [counted])
| served_passed n : reach (mkPair served passed n [counted])
| passed_served n : reach (mkPair passed served n [counted])
| served_refused n : reach (mkPair served refused n [counted])
| refused_served n : reach (mkPair refused served n [counted])
| both_served n : reach (mkPair served served n [counted]).

End LastUnit.

(* ------------------------------------------------------------------ *)
(** ** The other helpers of [@/app/utils/apiKeyUtils] *)

Module ApiKeyUtils.
Import JsString Store.

(** [s.repeat(n)] *)
Fixpoint repeat (s : string) (n : nat) : string :=
  match n with
  | O => EmptyString
  | S n' => (s ++ repeat s n')%string
  end.

(** Mask API key for display. *)
Definition maskApiKey (key : string) : string :=
  if String.length key <=? 8 then key
  else
    let prefix := substring 0 8 key in
    let masked := repeat "*" (Nat.min 24 (String.length key - 8)) in
    (prefix ++ masked)%string.

(** Total usage of an array of records:
    [apiKeys.reduce((sum, key) => sum + (key.usage_count || 0), 0)]. *)
Definition calculateTotalUsage (apiKeys : list api_key) : Z :=
  fold_left
    (fun sum key =>
       (sum + (if nonzero (usage_count key)
               then to_number (usage_count key) else 0))%Z)
    apiKeys 0%Z.

(** No code unit of [s] is white space. *)
Fixpoint no_white_space (s : string) : bool :=
  match s with
  | EmptyString => true
  | String c s' => negb (is_white_space c) && no_white_space s'
  end.

End ApiKeyUtils.
(* ------------------------------------------------------------------ *)
(** ** Words for what requests are and do *)

Module Serving.
Import JsString Json Store Handler.

(** The request carries [apiKey] and [githubUrl], both strings that are
    not blank: it passes STEPS 2 to 4 of the gated endpoint. *)
Definition gated_input (req : option Json.value) (apiKey githubUrl : string)
  : Prop :=
  exists fields,
    req = Some (JObj fields)
    /\ property fields "apiKey" = Some (JStr apiKey)
    /\ property fields "githubUrl" = Some (JStr githubUrl)
    /\ trim apiKey <> "" /\ trim githubUrl <> "".

(** The request carries [apiKey], a string that is not blank: it passes
    STEPS 2 and 3 of the validation endpoint. *)
Definition key_input (req : option Json.value) (apiKey : string) : Prop :=
  exists fields,
    req = Some (JObj fields)
    /\ property fields "apiKey" = Some (JStr apiKey)
    /\ trim apiKey <> "".

(** Each request runs to its end before the next one starts; the calls
    of the whole sequence are numbered in the order they are made. *)
Fixpoint run_all {R : Type} (hs : list (handler R)) (o : oracle) (n : nat)
         (t : table) : list R * table :=
  match hs with
  | [] => ([], t)
  | h :: hs' =>
      let '(out, t') := run h o n t in
      let '(outs, t'') :=
        run_all hs' o (n + List.length (calls h o n t)) t' in
      (out :: outs, t'')
  end.

(** What a request may change in a record: its count and [updated_at]. *)
Definition same_but_usage (r r' : api_key) : Prop :=
  id r' = id r /\ name r' = name r /\ key_value r' = key_value r
  /\ status r' = status r /\ usage_limit r' = usage_limit r
  /\ created_at r' = created_at r.

(** The count of a record with a limit (neither null nor 0) is within
    it. *)
Definition within_limit (r : api_key) : Prop :=
  nonzero (usage_limit r) = true ->
  (to_number (usage_count r) <= to_number (usage_limit r))%Z.

End Serving.
(* ------------------------------------------------------------------ *)
(** ** What the browser-side helpers rely on *)

Module Browser.
Import Json Store Handler.

(** [h] followed by a computation on its result. *)
Fixpoint and_then {A B : Type} (h : handler A) (f : A -> B) : handler B :=
  match h with
  | Return a => Return (f a)
  | Await q k => Await q (fun r => and_then (k r) f)
  end.

(** What becomes of one [fetch]: the request reaches the route and the
    answer comes back, or [fetch] rejects, before the route has run or
    after it. *)
Inductive network : Type :=
| Delivered
| RequestLost (message : string)
| ResponseLost (message : string).

(** [response.ok] *)
Definition ok (r : response) : bool :=
  (200 <=? status_code r) && (status_code r <=? 299).

(** [v || d] *)
Definition or_else (v : option Json.value) (d : Json.value) : Json.value :=
  match v with
  | Some x => if truthy v then x else d
  | None => d
  end.

(** [ToString] *)
Fixpoint to_string (v : Json.value) : string :=
  match v with
  | JNull => "null"
  | JBool true => "true"
  | JBool false => "false"
  | JNum z => NilZero.string_of_int (Z.to_int z)
  | JStr s => s
  | JArr items =>
      (fix join (l : list Json.value) : string :=
         match l with
         | [] => ""
         | x :: rest =>
             let shown := match x with
                          | JNull => ""
                          | _ => to_string x
                          end in
             match rest with
             | [] => shown
             | _ => shown ++ "," ++ join rest
             end
         end) items
  | JObj _ => "[object Object]"
  end%string.

(** [`HTTP Error: ${status}`] *)
Definition http_error (st : nat) : string :=
  ("HTTP Error: " ++ NilZero.string_of_uint (Nat.to_uint st))%string.

(** [error.message || 'Unknown error occurred'] *)
Definition message_or_unknown (message : string) : string :=
  if String.eqb message "" then "Unknown error occurred" else message.

(** The message of the TypeError raised by reading a property of
    [null]. *)
Definition null_property_message : string :=
  "Cannot read properties of null".

End Browser.

(* ------------------------------------------------------------------ *)
(** ** [validateApiKey], the browser-side caller of the validation
       endpoint *)

Module ApiValidation.
Import JsString Json Store Handler Browser.

(** What [validateApiKey] resolves to. *)
Record result : Type := mkResult {
  success : bool;
  valid : option Json.value;
  data : Json.value;
  error : Json.value
}.

(** The [catch] block. *)
Definition failed (message : string) : result :=
  {| success := false; valid := Some (JBool false); data := JNull;
     error := JStr (message_or_unknown message) |}.

(** STEPS 3 to 5, on the answer of the route. *)
Definition after_response (response : response) : result :=
  match destructure (body response) with
  | None => failed null_property_message
  | Some field =>
      if negb (ok response) then
        failed (to_string (or_else (field "error")
                                   (JStr (http_error (status_code response)))))
      else
        {| success := true;
           valid := field "valid";
           data := or_else (field "data") JNull;
           error := or_else (field "error") JNull |}
  end.

Definition validateApiKey (apiKey : option Json.value) (net : network)
  : handler result :=
  if negb (truthy apiKey) || negb (is_string apiKey) then
    Return (failed "API key is required and must be a string")
  else
  match apiKey with
  | Some (JStr apiKey) =>
      let request := Some (JObj [("apiKey", JStr (trim apiKey))]) in
      match net with
      | RequestLost message => Return (failed message)
      | ResponseLost message =>
          and_then (ValidateKey.POST request) (fun _ => failed message)
      | Delivered =>
          and_then (ValidateKey.POST request)
                   (fun out => after_response (resp out))
      end
  | _ => Return (failed "TypeError") (* not reached: a string *)
  end.

(** [validateApiKeyWithNotification]: the result and the notification
    shown, message and type. *)
Definition validateApiKeyWithNotification
           (apiKey : option Json.value) (net : network)
  : handler (result * (Json.value * string)) :=
  and_then (validateApiKey apiKey net)
    (fun result =>
       (result,
        if success result && truthy (valid result)
        then (JStr "Valid API key", "success")
        else (or_else (Some (error result)) (JStr "Invalid API key"),
              "error"))).

End ApiValidation.

(* ------------------------------------------------------------------ *)
(** ** [app/utils/githubSummarizerUtils.js], the browser-side caller of
       the gated endpoint *)

Module GithubSummarizerUtils.
Import JsString Json Store Handler Browser.

Definition isValidGithubUrl (url : option Json.value) : bool :=
  if negb (truthy url) || negb (is_string url) then false
  else
    match url with
    | Some (JStr url) => GithubSummarizer.githubUrlPattern_test (trim url)
    | _ => false
    end.

(** What [summarizeGithubRepo] resolves to. *)
Record result : Type := mkResult {
  success : bool;
  data : Json.value;
  usage : Json.value;
  error : Json.value
}.

(** The [catch] block. *)
Definition failed (message : string) : result :=
  {| success := false; data := JNull; usage := JNull;
     error := JStr (message_or_unknown message) |}.

(** STEPS 4 to 6, on the answer of the route. *)
Definition after_response (response : response) : result :=
  match destructure (body response) with
  | None => failed null_property_message
  | Some field =>
      if negb (ok response) then
        failed (to_string (or_else (field "error")
                                   (JStr (http_error (status_code response)))))
      else
        {| success := true;
           data := or_else (field "data") JNull;
           usage := or_else (field "usage") JNull;
           error := or_else (field "error") JNull |}
  end.

Definition summarizeGithubRepo (now : GithubSummarizer.clock)
           (apiKey githubUrl : option Json.value) (options : Json.value)
           (net : network) : handler result :=
  if negb (truthy apiKey) || negb (is_string apiKey) then
    Return (failed "API key is required and must be a string")
  else if negb (truthy githubUrl) || negb (is_string githubUrl) then
    Return (failed "GitHub URL is required and must be a string")
  else
  match apiKey, githubUrl with
  | Some (JStr apiKey), Some (JStr githubUrl) =>
      if negb (GithubSummarizer.githubUrlPattern_test (trim githubUrl)) then
        Return (failed "Invalid GitHub URL format. Must be a valid GitHub repository URL.")
      else
      let request :=
        Some (JObj [("apiKey", JStr (trim apiKey));
                    ("githubUrl", JStr (trim githubUrl));
                    ("options", options)]) in
      match net with
      | RequestLost message => Return (failed message)
      | ResponseLost message =>
          and_then (GithubSummarizer.POST now request)
                   (fun _ => failed message)
      | Delivered =>
          and_then (GithubSummarizer.POST now request)
                   (fun out => after_response (resp out))
      end
  | _, _ => Return (failed "TypeError") (* not reached: strings *)
  end.

End GithubSummarizerUtils.
(* ------------------------------------------------------------------ *)
(** ** The repository pattern, read as a description of URLs *)

Module RepositoryUrl.
Import JsString.

Fixpoint all_repo_chars (s : string) : bool :=
  match s with
  | EmptyString => true
  | String c s' => GithubSummarizer.repo_char c && all_repo_chars s'
  end.

(** [https://github.com/], then an owner of one or more characters of
    the class, a slash, and at least one character of the class;
    anything may follow. *)
Definition matches (s : string) : Prop :=
  exists owner c rest,
    s = ("https://github.com/" ++ owner ++ "/" ++ String c rest)%string
    /\ owner <> ""
    /\ all_repo_chars owner = true
    /\ GithubSummarizer.repo_char c = true.

End RepositoryUrl.
(* ------------------------------------------------------------------ *)
(** ** [app/hooks/useApiKeys.js]: creating, updating and deleting keys *)

Module UseApiKeys.
Import Json Store.

(** [keyData], as [ApiKeyModal] builds it. *)
Record key_data : Type := mkKeyData {
  new_name : string;
  new_key_value : string;
  new_status : key_status;
  new_usage_count : option Z;
  new_usage_limit : option Z
}.

(** [updateData], as [ApiKeyTable] builds it. *)
Record update_data : Type := mkUpdateData {
  set_name : string;
  set_status : key_status;
  set_usage_limit : option Z
}.

Definition unique_violation : pg_error :=
  {| code := "23505";
     message := "duplicate key value violates unique constraint" |}.

(** [.insert([keyData]).select()]: the id is drawn by the store
    ([gen_random_uuid()]), both timestamps default to its [NOW()], and
    the PRIMARY KEY and UNIQUE constraints are checked. *)
Definition insert_row (e : call_env) (uuid : string) (k : key_data)
           (t : table) : (list api_key + pg_error) * table :=
  match fault e with
  | Some err => (inr err, t)
  | None =>
      if existsb (fun r => String.eqb (id r) uuid
                           || String.eqb (key_value r) (new_key_value k)) t
      then (inr unique_violation, t)
      else
        let row := {| id := uuid; name := new_name k;
                      key_value := new_key_value k;
                      status := new_status k;
                      usage_count := new_usage_count k;
                      usage_limit := new_usage_limit k;
                      created_at := db_now e; updated_at := db_now e |} in
        (inl [row], (t ++ [row])%list)
  end.

Definition patched (p : update_data) (r : api_key) : api_key :=
  {| id := id r; name := set_name p; key_value := key_value r;
     status := set_status p; usage_count := usage_count r;
     usage_limit := set_usage_limit p; created_at := created_at r;
     updated_at := updated_at r |}.

(** [.update(updateData).eq('id', keyId).select()] *)
Definition update_rows (e : call_env) (keyId : string) (p : update_data)
           (t : table) : (list api_key + pg_error) * table :=
  match fault e with
  | Some err => (inr err, t)
  | None =>
      let t' := map (fun r => if String.eqb (id r) keyId
                              then update_updated_at_column
                                     (db_now e) (patched p r)
                              else r) t in
      (inl (filter (fun r => String.eqb (id r) keyId) t'), t')
  end.

(** [.delete().eq('id', keyId)] *)
Definition delete_rows (e : call_env) (keyId : string) (t : table)
  : option pg_error * table :=
  match fault e with
  | Some err => (Some err, t)
  | None => (None, filter (fun r => negb (String.eqb (id r) keyId)) t)
  end.

(** The state of the hook that the three operations read or write;
    an entry of [apiKeys] is [None] when it is [undefined]. *)
Record state : Type := mkState {
  apiKeys : list (option api_key);
  error : option string;
  submitting : bool
}.

(** The notifications of the hook. *)
Inductive notice : Type :=
| created | create_failed
| updated | update_failed
| deleted | delete_failed.

(** What one operation leaves behind. *)
Record result : Type := mkResult {
  returned : bool;
  state_after : state;
  shown : list notice;
  table_after : table
}.

(** The message of the TypeError raised by reading [key.id] of an entry
    that is [undefined]. *)
Definition undefined_property_message : string :=
  "Cannot read properties of undefined".

Definition all_defined (keys : list (option api_key)) : bool :=
  forallb (fun key => match key with Some _ => true | None => false end)
          keys.

Definition createApiKey (st : state) (e : call_env) (uuid : string)
           (keyData : key_data) (t : table) : result :=
  if submitting st then
    {| returned := false; state_after := st; shown := [];
       table_after := t |}
  else
    match insert_row e uuid keyData t with
    | (inl data, t') =>
        {| returned := true;
           state_after := {| apiKeys := nth_error data 0 :: apiKeys st;
                             error := None; submitting := false |};
           shown := [created]; table_after := t' |}
    | (inr err, t') =>
        {| returned := false;
           state_after := {| apiKeys := apiKeys st;
                             error := Some (message err);
                             submitting := false |};
           shown := [create_failed]; table_after := t' |}
    end.

Definition updateApiKey (st : state) (e : call_env) (keyId : string)
           (updateData : update_data) (t : table) : result :=
  if submitting st then
    {| returned := false; state_after := st; shown := [];
       table_after := t |}
  else
    match update_rows e keyId updateData t with
    | (inl data, t') =>
        if all_defined (apiKeys st) then
          {| returned := true;
             state_after :=
               {| apiKeys :=
                    map (fun key =>
                           match key with
                           | Some k => if String.eqb (id k) keyId
                                       then nth_error data 0 else key
                           | None => key
                           end) (apiKeys st);
                  error := None; submitting := false |};
             shown := [updated]; table_after := t' |}
        else
          {| returned := false;
             state_after := {| apiKeys := apiKeys st;
                               error := Some undefined_property_message;
                               submitting := false |};
             shown := [update_failed]; table_after := t' |}
    | (inr err, t') =>
        {| returned := false;
           state_after := {| apiKeys := apiKeys st;
                             error := Some (message err);
                             submitting := false |};
           shown := [update_failed]; table_after := t' |}
    end.

Definition deleteApiKey (st : state) (e : call_env) (keyId : string)
           (t : table) : result :=
  match delete_rows e keyId t with
  | (None, t') =>
      if all_defined (apiKeys st) then
        {| returned := true;
           state_after :=
             {| apiKeys :=
                  filter (fun key =>
                            match key with
                            | Some k => negb (String.eqb (id k) keyId)
                            | None => true
                            end) (apiKeys st);
                error := None; submitting := submitting st |};
           shown := [deleted]; table_after := t' |}
      else
        {| returned := false;
           state_after := {| apiKeys := apiKeys st;
                             error := Some undefined_property_message;
                             submitting := submitting st |};
           shown := [delete_failed]; table_after := t' |}
  | (Some err, t') =>
      {| returned := false;
         state_after := {| apiKeys := apiKeys st;
                           error := Some (message err);
                           submitting := submitting st |};
         shown := [delete_failed]; table_after := t' |}
  end.

(** [handleSubmit] of [ApiKeyModal]: the key data made from the form
    and two draws of the random source. *)
Definition keyData_of_form (name : string) (form_status : key_status)
           (limit : Z) (d1 d2 : KeyGen.draw) : key_data :=
  {| new_name := name;
     new_key_value := KeyGen.generateApiKey name d1 d2;
     new_status := form_status;
     new_usage_count := Some 0%Z;
     new_usage_limit := Some limit |}.

(** The operations a user of the dashboard can ask for. *)
Inductive action : Type :=
| Create (uuid : string) (keyData : key_data)
| Update (keyId : string) (updateData : update_data)
| Delete (keyId : string).

Definition perform (a : action) (st : state) (e : call_env) (t : table)
  : result :=
  match a with
  | Create uuid keyData => createApiKey st e uuid keyData t
  | Update keyId updateData => updateApiKey st e keyId updateData t
  | Delete keyId => deleteApiKey st e keyId t
  end.

(** The list shown is the table, in some order. *)
Definition in_sync (t : table) (st : state) : Prop :=
  Permutation (map Some t) (apiKeys st).

End UseApiKeys.

(* ================================================================== *)
(** * Properties *)

(* ------------------------------------------------------------------ *)
(** ** Strings *)

Section StringFacts.
Import JsString.

Lemma startsWith_app (p s : string) :
  startsWith (p ++ s)%string p = true.
Proof.
  induction p as [|a p IH]; simpl; [reflexivity|].
  now rewrite Ascii.eqb_refl, IH.
Qed.

Lemma startsWith_split (p : string) :
  forall s, startsWith s p = true ->
            exists post, s = (p ++ post)%string.
Proof.
  induction p as [|a p IH]; intros s H.
  - exists s. reflexivity.
  - destruct s as [|b s]; simpl in H; [discriminate|].
    apply andb_true_iff in H. destruct H as [Hab Hs].
    apply Ascii.eqb_eq in Hab. subst b.
    destruct (IH s Hs) as [post ->].
    exists post. reflexivity.
Qed.

Lemma includes_startsWith (s p : string) :
  startsWith s p = true -> includes s p = true.
Proof.
  intros H. destruct s; simpl; rewrite H; reflexivity.
Qed.

Lemma includes_app (pre p post : string) :
  includes (pre ++ p ++ post)%string p = true.
Proof.
  induction pre as [|c pre IH].
  - cbn [append]. apply includes_startsWith, startsWith_app.
  - simpl. rewrite IH. apply orb_true_r.
Qed.

Lemma includes_split (p : string) :
  forall s, includes s p = true ->
            exists pre post, s = (pre ++ p ++ post)%string.
Proof.
  induction s as [|c s IH]; intros H.
  - simpl in H. rewrite orb_false_r in H.
    destruct (startsWith_split _ _ H) as [post E].
    exists EmptyString, post. exact E.
  - simpl in H. apply orb_true_iff in H. destruct H as [H|H].
    + destruct (startsWith_split _ _ H) as [post E].
      exists EmptyString, post. exact E.
    + destruct (IH H) as (pre & post & ->).
      exists (String c pre), post. reflexivity.
Qed.

Lemma toLowerCase_app (a b : string) :
  toLowerCase (a ++ b)%string = (toLowerCase a ++ toLowerCase b)%string.
Proof.
  induction a as [|c a IH]; simpl; [reflexivity | now rewrite IH].
Qed.

Lemma toLowerCase_split (a : string) :
  forall s b, toLowerCase s = (a ++ b)%string ->
    exists a' b', s = (a' ++ b')%string
                  /\ toLowerCase a' = a /\ toLowerCase b' = b.
Proof.
  induction a as [|c a IH]; intros s b H.
  - exists EmptyString, s. auto.
  - destruct s as [|d s]; simpl in H; [discriminate|].
    injection H as Hc Hs.
    destruct (IH s b Hs) as (a' & b' & -> & Ha & Hb).
    exists (String d a'), b'. simpl. rewrite Hc, Ha. auto.
Qed.

Lemma length_take (n : nat) :
  forall s, String.length (take n s) = Nat.min n (String.length s).
Proof.
  induction n as [|n IH]; intros [|c s]; simpl; auto.
Qed.

Lemma length_app (a b : string) :
  String.length (a ++ b)%string = String.length a + String.length b.
Proof.
  induction a as [|c a IH]; simpl; [reflexivity | now rewrite IH].
Qed.

Lemma app_inv_head (p a b : string) :
  (p ++ a)%string = (p ++ b)%string -> a = b.
Proof.
  induction p as [|c p IH]; simpl; intros H; [exact H|].
  injection H as H. auto.
Qed.

(** Only a letter itself and its capital are mapped to it. *)
Ltac by_code_unit c :=
  destruct c as [[] [] [] [] [] [] [] []]; vm_compute;
  split; intros H;
  try discriminate H; auto;
  destruct H as [H|H]; try discriminate H; reflexivity.

Lemma lower_char_p (c : ascii) :
  lower_char c = "p"%char <-> (c = "p"%char \/ c = "P"%char).
Proof. by_code_unit c. Qed.

Lemma lower_char_r (c : ascii) :
  lower_char c = "r"%char <-> (c = "r"%char \/ c = "R"%char).
Proof. by_code_unit c. Qed.

Lemma lower_char_o (c : ascii) :
  lower_char c = "o"%char <-> (c = "o"%char \/ c = "O"%char).
Proof. by_code_unit c. Qed.

Lemma lower_char_d (c : ascii) :
  lower_char c = "d"%char <-> (c = "d"%char \/ c = "D"%char).
Proof. by_code_unit c. Qed.

End StringFacts.

(* ------------------------------------------------------------------ *)
(** ** Key generator *)

Section KeyGenFacts.
Import JsString KeyGen.

(** The test of the source agrees with the specification's wording. *)
Lemma includes_prod_iff (name : string) :
  includes (toLowerCase name) "prod" = true
  <-> contains_prod_any_casing name.
Proof.
  split.
  - intros H. apply includes_split in H.
    destruct H as (pre & post & H).
    apply toLowerCase_split in H.
    destruct H as (pre' & rest & -> & _ & H).
    destruct rest as [|c1 [|c2 [|c3 [|c4 post']]]];
      simpl in H; try discriminate H.
    injection H as H1 H2 H3 H4 _.
    exists pre', c1, c2, c3, c4, post'.
    split; [reflexivity|].
    unfold either_case.
    rewrite <- lower_char_p, <- lower_char_r,
            <- lower_char_o, <- lower_char_d.
    auto.
  - intros (pre & c1 & c2 & c3 & c4 & post & -> & H1 & H2 & H3 & H4).
    unfold either_case in *.
    apply lower_char_p in H1. apply lower_char_r in H2.
    apply lower_char_o in H3. apply lower_char_d in H4.
    rewrite toLowerCase_app. simpl.
    rewrite H1, H2, H3, H4.
    apply (includes_app (toLowerCase pre) "prod" (toLowerCase post)).
Qed.

Lemma key_shape (name : string) (d1 d2 : draw) :
  generateApiKey name d1 d2 = (keyPrefix name ++ randomKey d1 d2)%string.
Proof. reflexivity. Qed.

Lemma length_slice (d : draw) :
  String.length (substring 2 18 (toString36 d))
  = Nat.min 16 (String.length d).
Proof.
  unfold substring. change (Nat.max 2 18 - Nat.min 2 18) with 16.
  change (Nat.min 2 18) with 2.
  destruct d as [|c d]; [reflexivity|].
  change (drop 2 (toString36 (String c d))) with (String c d).
  apply length_take.
Qed.

(** C7.  For every name and every outcome of the two draws, either the
    name contains "prod" in some casing and the generated key starts
    with [pk_live_], or it does not and the key starts with [pk_dev_]
    (and not with [pk_live_]). *)
Theorem generateApiKey_prefix (name : string) (d1 d2 : draw) :
  (contains_prod_any_casing name
   /\ startsWith (generateApiKey name d1 d2) "pk_live_" = true)
  \/ (~ contains_prod_any_casing name
      /\ startsWith (generateApiKey name d1 d2) "pk_dev_" = true
      /\ startsWith (generateApiKey name d1 d2) "pk_live_" = false).
Proof.
  rewrite key_shape. unfold keyPrefix.
  destruct (includes (toLowerCase name) "prod") eqn:E.
  - left. split.
    + apply includes_prod_iff, E.
    + apply startsWith_app.
  - right. split; [|split].
    + intros C. apply includes_prod_iff in C. congruence.
    + apply startsWith_app.
    + reflexivity.
Qed.

(** What the code gives instead: the suffix appended after the prefix
    is made of at most 16 digits of each draw, its length is
    [min 16 |d1| + min 16 |d2|], hence at most 32. *)
Theorem randomKey_at_most_32 (name : string) (d1 d2 : draw) :
  generateApiKey name d1 d2 = (keyPrefix name ++ randomKey d1 d2)%string
  /\ String.length (randomKey d1 d2)
     = Nat.min 16 (String.length d1) + Nat.min 16 (String.length d2)
  /\ String.length (randomKey d1 d2) <= 32.
Proof.
  split; [reflexivity|].
  unfold randomKey. rewrite length_app, !length_slice. lia.
Qed.

(** C8.  When both draws are 1/2, whose base-36 rendering is [0.i], the
    suffix appended after the prefix is [ii]: 2 characters, not 32. *)
Lemma randomKey_shorter_than_32 :
  toString36 one_half = "0.i"
  /\ generateApiKey "dev" one_half one_half = ("pk_dev_" ++ "ii")%string
  /\ randomKey one_half one_half = "ii"
  /\ ~ 32 <= String.length (randomKey one_half one_half).
Proof.
  repeat split. vm_compute. lia.
Qed.

End KeyGenFacts.

(* ------------------------------------------------------------------ *)
(** ** The key store *)

Section StoreFacts.
Import Store.

Lemma status_eqb_active (s : key_status) :
  status_eqb s active = true <-> s = active.
Proof. destruct s; simpl; split; congruence. Qed.

Lemma active_matches_none (t : table) (k : string) :
  (forall x, In x t -> key_value x = k -> status x <> active) ->
  active_matches t k = [].
Proof.
  induction t as [|a t IH]; intros H; [reflexivity|].
  unfold active_matches in *. simpl.
  destruct (String.eqb (key_value a) k) eqn:Ek; simpl.
  - apply String.eqb_eq in Ek.
    destruct (status a) eqn:Es.
    + exfalso. apply (H a (or_introl eq_refl) Ek Es).
    + simpl. apply IH. intros x Hx. apply H. now right.
  - apply IH. intros x Hx. apply H. now right.
Qed.


Lemma unique_key_holder (t : table) (r x : api_key) :
  unique_key_values t -> In r t -> In x t ->
  key_value x = key_value r -> x = r.
Proof.
  unfold unique_key_values.
  induction t as [|a t IH]; intros U I Hx Ex; [destruct I|].
  simpl in U. inversion U as [|? ? Hnotin Ut]; subst.
  destruct Hx as [->|Hx], I as [->|I]; auto.
  - exfalso. apply Hnotin. rewrite Ex. now apply in_map.
  - exfalso. apply Hnotin. rewrite <- Ex. now apply in_map.
Qed.

(** The key of an inactive record finds nothing. *)
Lemma inactive_key_matches_nothing (t : table) (r : api_key) :
  unique_key_values t -> In r t -> status r = inactive ->
  active_matches t (key_value r) = [].
Proof.
  intros U I S. apply active_matches_none. intros x Hx Ex.
  rewrite (unique_key_holder t r x U I Hx Ex). congruence.
Qed.

(** A key that no record holds finds nothing. *)
Lemma missing_key_matches_nothing (t : table) (k : string) :
  (forall x, In x t -> key_value x <> k) -> active_matches t k = [].
Proof.
  intros Absent. apply active_matches_none. intros x Hx Ex.
  exfalso. apply (Absent x Hx Ex).
Qed.

Lemma validates_to_inv (t : table) (k : string) (r : api_key) :
  validates_to t k r -> In r t /\ key_value r = k /\ status r = active.
Proof.
  unfold validates_to, active_matches. intros H.
  assert (I : In r (filter (fun r => String.eqb (key_value r) k
                     && status_eqb (status r) active) t))
    by (rewrite H; now left).
  apply filter_In in I. destruct I as [I C].
  apply andb_true_iff in C. destruct C as [C1 C2].
  apply String.eqb_eq in C1. apply status_eqb_active in C2. auto.
Qed.

Lemma select_validated (t : table) (k : string) (r : api_key) :
  validates_to t k r ->
  select_active_single t k = {| data := Some r; error := None |}.
Proof. unfold validates_to, select_active_single. now intros ->. Qed.

Lemma select_not_found (t : table) (k : string) :
  active_matches t k = [] ->
  select_active_single t k = {| data := None; error := Some no_rows |}.
Proof. unfold select_active_single. now intros ->. Qed.

Lemma update_usage_other (now i u : string) (c : Z) (t : table) :
  (forall x, In x t -> id x <> i) -> update_usage now i c u t = t.
Proof.
  induction t as [|a t IH]; intros H; [reflexivity|].
  unfold update_usage in *. simpl.
  destruct (String.eqb (id a) i) eqn:E.
  - apply String.eqb_eq in E. exfalso. apply (H a); [now left | exact E].
  - f_equal. apply IH. intros x Hx. apply H. now right.
Qed.

(** Under the PRIMARY KEY constraint the update by [id] rewrites one
    record and leaves every other record, and the order, as they were. *)
Lemma update_usage_one (now u : string) (c : Z) (t : table) (r : api_key) :
  unique_ids t -> In r t ->
  exists before after,
    t = (before ++ r :: after)%list
    /\ update_usage now (id r) c u t
       = (before ++ update_updated_at_column now (set_usage c u r)
                 :: after)%list.
Proof.
  unfold unique_ids.
  induction t as [|a t IH]; intros U I; [destruct I|].
  simpl in U. inversion U as [|? ? Hnotin Ut]; subst.
  destruct I as [->|I].
  - exists [], t. split; [reflexivity|].
    unfold update_usage. simpl. rewrite String.eqb_refl. f_equal.
    apply update_usage_other. intros x Hx Ex.
    apply Hnotin. rewrite <- Ex. now apply in_map.
  - destruct (IH Ut I) as (before & after & Et & Eu).
    exists (a :: before), after. split; [simpl; now f_equal|].
    unfold update_usage in *. simpl.
    destruct (String.eqb (id a) (id r)) eqn:E.
    + apply String.eqb_eq in E. exfalso. apply Hnotin.
      rewrite E. now apply in_map.
    + now rewrite Eu.
Qed.

End StoreFacts.

(* ------------------------------------------------------------------ *)
(** ** The validation endpoint *)

Section ValidateKeyFacts.
Import JsString Json Store Handler ValidateKey.

Lemma nonblank_nonempty (s : string) :
  trim s <> "" -> String.eqb s "" = false.
Proof.
  intros H. apply String.eqb_neq. intros ->. now apply H.
Qed.

(** A request whose [apiKey] is a string that is not blank reaches the
    look-up of the trimmed key. *)
Lemma validate_reaches_lookup fields apiKey :
  property fields "apiKey" = Some (JStr apiKey) ->
  trim apiKey <> "" ->
  POST (Some (JObj fields))
  = Await (SelectActiveSingle (trim apiKey)) after_lookup.
Proof.
  intros P B. unfold POST. simpl. rewrite P. simpl.
  rewrite (nonblank_nonempty _ B). simpl.
  apply String.eqb_neq in B. now rewrite B.
Qed.

Lemma validate_never_updates (r : reply) (q : query) :
  ~ issues (after_lookup r) q.
Proof.
  unfold after_lookup. intros H.
  destruct (error r) as [e|].
  - destruct (String.eqb (code e) "PGRST116"); inversion H.
  - destruct (data r); inversion H.
Qed.


(** C5.  Two validation requests with keys that pass the input checks,
    one for a key held by an inactive record and one for a key that no
    record holds, get the same answer, status code and body: 404 with
    [valid: false] and the error "Invalid API key". *)
Theorem inactive_and_missing_keys_look_alike
        fields1 fields2 apiKey1 apiKey2 (o1 o2 : oracle) (n1 n2 : nat)
        (t1 t2 : table) (r : api_key) :
  property fields1 "apiKey" = Some (JStr apiKey1) ->
  trim apiKey1 <> "" ->
  property fields2 "apiKey" = Some (JStr apiKey2) ->
  trim apiKey2 <> "" ->
  fault (o1 n1) = None -> fault (o2 n2) = None ->
  unique_key_values t1 ->
  In r t1 -> key_value r = trim apiKey1 -> status r = inactive ->
  (forall x, In x t2 -> key_value x <> trim apiKey2) ->
  fst (run (POST (Some (JObj fields1))) o1 n1 t1)
  = fst (run (POST (Some (JObj fields2))) o2 n2 t2)
  /\ resp (fst (run (POST (Some (JObj fields1))) o1 n1 t1))
     = failure 404 "Invalid API key".
Proof.
  intros P1 B1 P2 B2 F1 F2 U I K S Absent.
  rewrite (validate_reaches_lookup _ _ P1 B1).
  rewrite (validate_reaches_lookup _ _ P2 B2).
  simpl. unfold exec. rewrite F1, F2, <- K.
  rewrite (select_not_found _ _ (inactive_key_matches_nothing _ _ U I S)).
  rewrite (select_not_found _ _ (missing_key_matches_nothing _ _ Absent)).
  split; reflexivity.
Qed.

(** C6.  Whatever the request and whatever the store answers, running
    the validation endpoint leaves the table as it was, and the only
    kind of call the handler can ever issue is the look-up. *)
Theorem validation_never_writes
        (request_json : option Json.value) (o : oracle) (n : nat)
        (t : table) :
  snd (run (POST request_json) o n t) = t
  /\ forall q, issues (POST request_json) q ->
               exists k, q = SelectActiveSingle k.
Proof.
  split.
  - unfold POST.
    destruct request_json as [parsed|]; [|reflexivity].
    destruct (destructure parsed) as [field|]; [|reflexivity].
    destruct (negb (truthy (field "apiKey"))
              || negb (is_string (field "apiKey"))); [reflexivity|].
    destruct (field "apiKey") as [[| | |apiKey| |]|]; try reflexivity.
    cbv zeta.
    destruct (String.eqb (trim apiKey) ""); [reflexivity|].
    simpl. unfold exec.
    destruct (fault (o n)) as [err|]; unfold after_lookup; simpl.
    + destruct (String.eqb (code err) "PGRST116"); reflexivity.
    + destruct (data (select_active_single t (trim apiKey)));
        destruct (error (select_active_single t (trim apiKey))) as [e|];
        try destruct (String.eqb (code e) "PGRST116"); reflexivity.
  - intros q H. unfold POST in H.
    destruct request_json as [parsed|]; [|inversion H].
    destruct (destructure parsed) as [field|]; [|inversion H].
    destruct (negb (truthy (field "apiKey"))
              || negb (is_string (field "apiKey"))); [inversion H|].
    destruct (field "apiKey") as [[| | |apiKey| |]|]; try (inversion H; fail).
    cbv zeta in H.
    destruct (String.eqb (trim apiKey) ""); [inversion H|].
    inversion H; subst.
    + eexists; reflexivity.
    + exfalso. eapply validate_never_updates; eassumption.
Qed.

End ValidateKeyFacts.

(* ------------------------------------------------------------------ *)
(** ** The gated endpoint *)

Section GatedRequest.
Import JsString Json Store Handler GithubSummarizer.

(** A request that passes the input checks (STEPS 2 to 4) and whose key
    validates to the record [r] (STEPS 5 and 6). *)
Variables (now : clock) (fields : list (string * Json.value)).
Variables (apiKey githubUrl : string).
Variables (o : oracle) (n : nat) (t : table) (r : api_key).

Hypothesis apiKey_given : property fields "apiKey" = Some (JStr apiKey).
Hypothesis githubUrl_given :
  property fields "githubUrl" = Some (JStr githubUrl).
Hypothesis apiKey_not_blank : trim apiKey <> "".
Hypothesis githubUrl_not_blank : trim githubUrl <> "".
Hypothesis lookup_answers : fault (o n) = None.
Hypothesis key_validates : validates_to t (trim apiKey) r.

Let request := Some (JObj fields).
Let summary := summary_of (trim githubUrl) (summary_time now) r.
Let lookup := SelectActiveSingle (trim apiKey).
Let increment :=
  UpdateUsage (id r) (to_number (usage_count r) + 1) (update_time now).

Lemma gated_reaches_lookup :
  POST now request = Await lookup (after_lookup now (trim githubUrl)).
Proof.
  unfold POST, request. simpl.
  rewrite apiKey_given, githubUrl_given. simpl.
  rewrite (nonblank_nonempty _ apiKey_not_blank).
  rewrite (nonblank_nonempty _ githubUrl_not_blank). simpl.
  apply String.eqb_neq in apiKey_not_blank, githubUrl_not_blank.
  now rewrite apiKey_not_blank, githubUrl_not_blank.
Qed.

Lemma gated_lookup_reply :
  exec (o n) lookup t = ({| data := Some r; error := None |}, t).
Proof.
  unfold exec, lookup. rewrite lookup_answers.
  now rewrite (select_validated _ _ _ key_validates).
Qed.

Lemma run_gated :
  run (POST now request) o n t
  = run (after_lookup now (trim githubUrl)
                      {| data := Some r; error := None |}) o (S n) t.
Proof.
  rewrite gated_reaches_lookup. simpl. now rewrite gated_lookup_reply.
Qed.

Lemma calls_gated :
  calls (POST now request) o n t
  = lookup :: calls (after_lookup now (trim githubUrl)
                                  {| data := Some r; error := None |})
                    o (S n) t.
Proof.
  rewrite gated_reaches_lookup. simpl. now rewrite gated_lookup_reply.
Qed.

(** C1.  When the key validates to a record with a positive limit that
    its count has reached, the answer is 429, the table is left as it
    was, and the look-up is the only store call of the request: no
    summary is built and no update is sent. *)
Theorem over_limit_is_rate_limited (limit : Z) :
  usage_limit r = Some limit ->
  (0 < limit)%Z ->
  (limit <= to_number (usage_count r))%Z ->
  run (POST now request) o n t
  = ({| resp := failure 429 "API key usage limit exceeded";
        console := [] |}, t)
  /\ calls (POST now request) o n t = [lookup].
Proof.
  intros L Pos Over.
  assert (Reached : limit_reached r = true).
  { unfold limit_reached. rewrite L. simpl.
    apply andb_true_iff. split.
    - apply negb_true_iff, Z.eqb_neq. lia.
    - apply Z.leb_le. exact Over. }
  rewrite run_gated, calls_gated.
  unfold after_lookup. simpl. rewrite Reached. split; reflexivity.
Qed.

(** C2, as the code has it.  When the key validates to a record whose
    count is below its limit, the repository URL has the expected
    format and the store accepts the update, the answer is 200 with the
    summary and the usage [{current: count + 1, limit}], and in the
    table that one record, and no other, now has [count + 1] and the
    store's current time as [updated_at]. *)
Theorem under_limit_is_counted (limit : Z) :
  unique_ids t ->
  usage_limit r = Some limit ->
  (to_number (usage_count r) < limit)%Z ->
  githubUrlPattern_test (trim githubUrl) = true ->
  fault (o (S n)) = None ->
  exists before after,
    t = (before ++ r :: after)%list
    /\ run (POST now request) o n t
       = ({| resp :=
               {| status_code := 200;
                  body := JObj [("success", JBool true);
                                ("data", summary);
                                ("usage",
                                 JObj [("current",
                                        JNum (to_number (usage_count r) + 1));
                                       ("limit", JNum limit)])] |};
             console := [] |},
          (before
             ++ {| id := id r; name := name r; key_value := key_value r;
                   status := status r;
                   usage_count := Some (to_number (usage_count r) + 1)%Z;
                   usage_limit := usage_limit r;
                   created_at := created_at r;
                   updated_at := db_now (o (S n)) |}
             :: after)%list).
Proof.
  intros U L Under Url Ok.
  assert (Free : limit_reached r = false).
  { unfold limit_reached. rewrite L. simpl.
    apply andb_false_iff. right. apply Z.leb_gt. exact Under. }
  destruct (validates_to_inv _ _ _ key_validates) as (I & _ & _).
  destruct (update_usage_one (db_now (o (S n))) (update_time now)
              (to_number (usage_count r) + 1) t r U I)
    as (before & after & Et & Eu).
  exists before, after. split; [exact Et|].
  rewrite run_gated. unfold after_lookup. simpl.
  rewrite Free, Url. simpl. unfold exec. rewrite Ok.
  rewrite Eu. unfold success, update_updated_at_column, set_usage.
  simpl. rewrite L. reflexivity.
Qed.


(** C10, as the code has it.  When the key validates to a record whose
    limit is null or 0, the limit check lets the request through
    whatever the count is and the answer is never 429.  What follows
    depends on the format check of STEP 8 only: a request whose URL has
    the repository format is answered 200 after the update to
    [count + 1] has been sent; one whose URL has not is answered 400,
    the look-up is its only store call and the table is left as it
    was. *)
Theorem no_limit_is_never_rate_limited :
  usage_limit r = None \/ usage_limit r = Some 0%Z ->
  limit_reached r = false
  /\ status_code (resp (fst (run (POST now request) o n t))) <> 429
  /\ if githubUrlPattern_test (trim githubUrl)
     then resp (fst (run (POST now request) o n t)) = success summary r
          /\ calls (POST now request) o n t = [lookup; increment]
     else status_code (resp (fst (run (POST now request) o n t))) = 400
          /\ calls (POST now request) o n t = [lookup]
          /\ snd (run (POST now request) o n t) = t.
Proof.
  intros L.
  assert (Free : limit_reached r = false).
  { unfold limit_reached. destruct L as [-> | ->]; reflexivity. }
  split; [exact Free|].
  rewrite run_gated, calls_gated. unfold after_lookup. simpl.
  rewrite Free.
  destruct (githubUrlPattern_test (trim githubUrl)); simpl.
  - unfold exec.
    destruct (fault (o (S n))); simpl; (split; [discriminate | split; reflexivity]).
  - split; [discriminate | repeat split].
Qed.

End GatedRequest.

(** The gated endpoint, too, answers alike for the key of an inactive
    record and for a key that no record holds: 401 in both cases. *)
Lemma gated_inactive_and_missing_keys_look_alike
      now1 now2 fields1 fields2 apiKey1 apiKey2 url1 url2
      (o1 o2 : Store.oracle) (n1 n2 : nat) (t1 t2 : Store.table)
      (r : Store.api_key) :
  Json.property fields1 "apiKey" = Some (Json.JStr apiKey1) ->
  Json.property fields1 "githubUrl" = Some (Json.JStr url1) ->
  JsString.trim apiKey1 <> "" -> JsString.trim url1 <> "" ->
  Json.property fields2 "apiKey" = Some (Json.JStr apiKey2) ->
  Json.property fields2 "githubUrl" = Some (Json.JStr url2) ->
  JsString.trim apiKey2 <> "" -> JsString.trim url2 <> "" ->
  Store.fault (o1 n1) = None -> Store.fault (o2 n2) = None ->
  Store.unique_key_values t1 ->
  In r t1 -> Store.key_value r = JsString.trim apiKey1 ->
  Store.status r = Store.inactive ->
  (forall x, In x t2 -> Store.key_value x <> JsString.trim apiKey2) ->
  fst (Handler.run (GithubSummarizer.POST now1 (Some (Json.JObj fields1)))
                   o1 n1 t1)
  = {| resp := GithubSummarizer.failure 401 "Invalid API key";
       console := [] |}
  /\ fst (Handler.run (GithubSummarizer.POST now2 (Some (Json.JObj fields2)))
                      o2 n2 t2)
     = {| resp := GithubSummarizer.failure 401 "Invalid API key";
          console := [] |}.
Proof.
  intros P1 G1 B1 C1 P2 G2 B2 C2 F1 F2 U I K S Absent.
  rewrite (gated_reaches_lookup now1 _ _ _ P1 G1 B1 C1).
  rewrite (gated_reaches_lookup now2 _ _ _ P2 G2 B2 C2).
  simpl. unfold Store.exec. rewrite F1, F2, <- K.
  rewrite (select_not_found _ _ (inactive_key_matches_nothing _ _ U I S)).
  rewrite (select_not_found _ _ (missing_key_matches_nothing _ _ Absent)).
  split; reflexivity.
Qed.

(* ------------------------------------------------------------------ *)
(** ** The claims at concrete requests *)

Section Instances.
Import JsString Json Store Handler Scenario.

Ltac evaluate :=
  vm_compute; try reflexivity; try discriminate; try lia.

Lemma over_limit_is_rate_limited_witness :
  run (GithubSummarizer.POST now (gated_request " pk_live_k1 " repo))
      calm 0 [record (Some 5%Z) (Some 5%Z) active]
  = ({| resp := GithubSummarizer.failure 429 "API key usage limit exceeded";
        console := [] |},
     [record (Some 5%Z) (Some 5%Z) active])
  /\ calls (GithubSummarizer.POST now (gated_request " pk_live_k1 " repo))
           calm 0 [record (Some 5%Z) (Some 5%Z) active]
     = [SelectActiveSingle "pk_live_k1"].
Proof.
  apply (over_limit_is_rate_limited
           now (gated_fields " pk_live_k1 " repo) " pk_live_k1 " repo
           calm 0 [record (Some 5%Z) (Some 5%Z) active]
           (record (Some 5%Z) (Some 5%Z) active)) with (limit := 5%Z);
    evaluate.
Defined.

Lemma under_limit_is_counted_witness :
  exists before after,
    [record (Some 4%Z) (Some 5%Z) active]
    = (before ++ record (Some 4%Z) (Some 5%Z) active :: after)%list
    /\ run (GithubSummarizer.POST now (gated_request "pk_live_k1" repo))
           calm 0 [record (Some 4%Z) (Some 5%Z) active]
       = ({| resp :=
               {| status_code := 200;
                  body :=
                    JObj [("success", JBool true);
                          ("data",
                           GithubSummarizer.summary_of
                             repo "2024-06-01T11:59:59.100Z"
                             (record (Some 4%Z) (Some 5%Z) active));
                          ("usage", JObj [("current", JNum 5);
                                          ("limit", JNum 5)])] |};
             console := [] |},
          (before
             ++ {| id := "7f3c"; name := "Production Key";
                   key_value := "pk_live_k1"; status := active;
                   usage_count := Some 5%Z; usage_limit := Some 5%Z;
                   created_at := "2024-01-01T00:00:00Z";
                   updated_at := "2024-06-01T12:00:00Z" |}
             :: after)%list).
Proof.
  apply (under_limit_is_counted
           now (gated_fields "pk_live_k1" repo) "pk_live_k1" repo
           calm 0 [record (Some 4%Z) (Some 5%Z) active]
           (record (Some 4%Z) (Some 5%Z) active)) with (limit := 5%Z);
    try (repeat constructor; simpl; tauto); evaluate.
Defined.

(** C2, as the specification has it, fails on a validated key below its
    limit in two ways: a URL that is not a GitHub repository is turned
    down with 400 after the key was accepted, and an update that fails
    leaves the count at 0 while the answer reports 1. *)
Lemma under_limit_is_not_always_counted :
  validates_to [record (Some 0%Z) (Some 1000%Z) active]
               (trim "pk_live_k1") (record (Some 0%Z) (Some 1000%Z) active)
  /\ (to_number (Some 0%Z) < 1000)%Z
  /\ run (GithubSummarizer.POST
            now (gated_request "pk_live_k1" "https://example.com/a/b"))
         calm 0 [record (Some 0%Z) (Some 1000%Z) active]
     = ({| resp := GithubSummarizer.failure 400
                     "Invalid GitHub URL format. Must be a valid GitHub repository URL.";
           console := [] |},
        [record (Some 0%Z) (Some 1000%Z) active])
  /\ run (GithubSummarizer.POST now (gated_request "pk_live_k1" repo))
         update_times_out 0 [record (Some 0%Z) (Some 1000%Z) active]
     = ({| resp := GithubSummarizer.success
                     (GithubSummarizer.summary_of
                        repo "2024-06-01T11:59:59.100Z"
                        (record (Some 0%Z) (Some 1000%Z) active))
                     (record (Some 0%Z) (Some 1000%Z) active);
           console := [("Failed to update usage count:",
                        "statement timeout")] |},
        [record (Some 0%Z) (Some 1000%Z) active]).
Proof.
  repeat split.
Qed.


(** C10, as the claim has it, fails on a key without a limit when the
    URL is not a GitHub repository: the key validates, the limit is
    null and the limit check lets the request through, but STEP 8
    answers 400, the look-up is the only store call and the count is
    left as it was, so the usage increment does not proceed. *)
Lemma no_limit_increment_can_be_stopped :
  validates_to [record (Some 123456789%Z) None active]
               (trim "pk_live_k1") (record (Some 123456789%Z) None active)
  /\ usage_limit (record (Some 123456789%Z) None active) = None
  /\ GithubSummarizer.limit_reached (record (Some 123456789%Z) None active)
     = false
  /\ run (GithubSummarizer.POST
            now (gated_request "pk_live_k1" "https://example.com/a/b"))
         calm 0 [record (Some 123456789%Z) None active]
     = ({| resp := GithubSummarizer.failure 400
                     "Invalid GitHub URL format. Must be a valid GitHub repository URL.";
           console := [] |},
        [record (Some 123456789%Z) None active])
  /\ calls (GithubSummarizer.POST
              now (gated_request "pk_live_k1" "https://example.com/a/b"))
           calm 0 [record (Some 123456789%Z) None active]
     = [SelectActiveSingle "pk_live_k1"].
Proof.
  repeat split.
Qed.

Lemma no_limit_is_never_rate_limited_witness :
  status_code
    (resp (fst (run (GithubSummarizer.POST
                       now (gated_request "pk_live_k1" repo))
                    calm 0 [record (Some 123456789%Z) None active])))
  <> 429.
Proof.
  refine (proj1 (proj2 (no_limit_is_never_rate_limited
           now (gated_fields "pk_live_k1" repo) "pk_live_k1" repo
           calm 0 [record (Some 123456789%Z) None active]
           (record (Some 123456789%Z) None active) _ _ _ _ _ _ _)));
    try (left; reflexivity); evaluate.
Defined.


Lemma inactive_and_missing_keys_look_alike_witness :
  fst (run (ValidateKey.POST (Some (JObj (key_fields "pk_live_k1"))))
           calm 0 [record (Some 3%Z) (Some 1000%Z) inactive])
  = fst (run (ValidateKey.POST (Some (JObj (key_fields "pk_dev_nobody"))))
             calm 0 [record (Some 3%Z) (Some 1000%Z) inactive]).
Proof.
  refine (proj1 (inactive_and_missing_keys_look_alike
           (key_fields "pk_live_k1") (key_fields "pk_dev_nobody")
           "pk_live_k1" "pk_dev_nobody" calm calm 0 0
           [record (Some 3%Z) (Some 1000%Z) inactive]
           [record (Some 3%Z) (Some 1000%Z) inactive]
           (record (Some 3%Z) (Some 1000%Z) inactive)
           _ _ _ _ _ _ _ _ _ _ _));
    try (repeat constructor; simpl; tauto); try (now left); evaluate.
  intros x [<-|[]]. evaluate.
Defined.

End Instances.

(* ------------------------------------------------------------------ *)
(** ** Two gated requests on one record with one unit left *)

Section LastUnitFacts.
Import JsString Json Store Handler Scenario LastUnit.

(** C3.  With [usage_limit = 1] and [usage_count = 0], when both
    look-ups are answered before either update, both requests pass the
    limit check and both are answered 200 with usage [{1, 1}]; the two
    updates write the same value, so the stored count ends at 1. *)
Lemma two_requests_both_pass_a_limit_of_one :
  status_of (first (run_pair calm [First; Second; First; Second] start))
  = Some 200
  /\ status_of (second (run_pair calm [First; Second; First; Second] start))
     = Some 200
  /\ map usage_count
         (rows (run_pair calm [First; Second; First; Second] start))
     = [Some 1%Z].
Proof. repeat split. Qed.

(** One request after the other: the second one is turned down. *)
Lemma two_requests_in_a_row :
  status_of (first (run_pair calm [First; First; Second] start)) = Some 200
  /\ status_of (second (run_pair calm [First; First; Second] start))
     = Some 429
  /\ map usage_count (rows (run_pair calm [First; First; Second] start))
     = [Some 1%Z].
Proof. repeat split. Qed.

Lemma reach_step (who : turn) (p : pair outcome) :
  reach p -> reach (step_pair calm who p).
Proof.
  intros [n|n|n|n|n|n|n|n|n|n|n]; destruct who;
    first [ apply both_waiting | apply first_passed | apply second_passed
          | apply both_passed | apply first_served | apply second_served
          | apply served_passed | apply passed_served
          | apply served_refused | apply refused_served
          | apply both_served ].
Qed.

Lemma reach_run (sched : list turn) :
  forall p, reach p -> reach (run_pair calm sched p).
Proof.
  induction sched as [|who sched IH]; intros p H; simpl.
  - exact H.
  - apply IH, reach_step, H.
Qed.

(** Whatever the schedule, once both requests are answered the stored
    count is 1 and at least one request was served; the other one was
    served too or was turned down with 429. *)
Theorem last_unit_any_schedule (sched : list turn) (a b : outcome) :
  finished (first (run_pair calm sched start)) = Some a ->
  finished (second (run_pair calm sched start)) = Some b ->
  map usage_count (rows (run_pair calm sched start)) = [Some 1%Z]
  /\ ((status_code (resp a) = 200 /\ status_code (resp b) = 200)
      \/ (status_code (resp a) = 200 /\ status_code (resp b) = 429)
      \/ (status_code (resp a) = 429 /\ status_code (resp b) = 200)).
Proof.
  assert (R : reach (run_pair calm sched start))
    by (apply reach_run, both_waiting).
  destruct R; simpl; intros Fa Fb;
    try discriminate Fa; try discriminate Fb;
    injection Fa as <-; injection Fb as <-;
    (split; [reflexivity|]); simpl; auto.
Qed.

End LastUnitFacts.

(* ------------------------------------------------------------------ *)
(** ** The end-to-end scenario of the specification *)

Section EndToEnd.
Import JsString Json Store Handler Scenario KeyGen.

(** A key named "Production Key" gets the live prefix. *)
Example production_key_is_live (d1 d2 : draw) :
  startsWith (generateApiKey "Production Key" d1 d2) "pk_live_" = true.
Proof. apply startsWith_app. Qed.

(** Three requests in a row on a limit of 2: usage [{1, 2}], then
    [{2, 2}], then 429 with the count left at 2. *)
Example three_requests_on_a_limit_of_two :
  run (GithubSummarizer.POST now (gated_request "pk_live_k1" repo))
      calm 0 [record (Some 0%Z) (Some 2%Z) active]
  = ({| resp := GithubSummarizer.success
                  (GithubSummarizer.summary_of
                     repo "2024-06-01T11:59:59.100Z"
                     (record (Some 0%Z) (Some 2%Z) active))
                  (record (Some 0%Z) (Some 2%Z) active);
        console := [] |},
     [LastUnit.counted_from (record (Some 0%Z) (Some 2%Z) active)])
  /\ map usage_count
       (snd (run (GithubSummarizer.POST now (gated_request "pk_live_k1" repo))
                 calm 2
                 [LastUnit.counted_from
                    (record (Some 0%Z) (Some 2%Z) active)]))
     = [Some 2%Z]
  /\ run (GithubSummarizer.POST now (gated_request "pk_live_k1" repo))
         calm 4
         [LastUnit.counted_from
            (LastUnit.counted_from (record (Some 0%Z) (Some 2%Z) active))]
     = ({| resp := GithubSummarizer.failure
                     429 "API key usage limit exceeded";
           console := [] |},
        [LastUnit.counted_from
           (LastUnit.counted_from (record (Some 0%Z) (Some 2%Z) active))]).
Proof. repeat split. Qed.

End EndToEnd.

(* ------------------------------------------------------------------ *)
(** ** Masking a key for display *)

Section MaskFacts.
Import JsString KeyGen ApiKeyUtils.

Lemma length_repeat_star (n : nat) :
  String.length (ApiKeyUtils.repeat "*" n) = n.
Proof. induction n as [|n IH]; simpl; [reflexivity | now rewrite IH]. Qed.

Lemma take_all (n : nat) :
  forall s, String.length s <= n -> take n s = s.
Proof.
  induction n as [|n IH]; intros [|c s] H; simpl in *;
    try reflexivity; try lia.
  f_equal. apply IH. lia.
Qed.

Lemma take_app_exact (a b : string) :
  take (String.length a) (a ++ b)%string = a.
Proof. induction a as [|c a IH]; simpl; [now destruct b | now rewrite IH]. Qed.

Lemma mask_long (key : string) :
  8 < String.length key ->
  maskApiKey key
  = (take 8 key
       ++ ApiKeyUtils.repeat "*" (Nat.min 24 (String.length key - 8)))%string.
Proof.
  intros H. unfold maskApiKey.
  destruct (String.length key <=? 8) eqn:E.
  - apply Nat.leb_le in E. lia.
  - reflexivity.
Qed.

Lemma mask_short (key : string) :
  String.length key <= 8 -> maskApiKey key = key.
Proof.
  intros H. unfold maskApiKey. apply Nat.leb_le in H. now rewrite H.
Qed.

Lemma mask_length (key : string) :
  String.length (maskApiKey key) = Nat.min (String.length key) 32.
Proof.
  destruct (Nat.le_gt_cases (String.length key) 8) as [H|H].
  - rewrite (mask_short _ H). lia.
  - rewrite (mask_long _ H), length_app, length_take, length_repeat_star.
    lia.
Qed.

(** The masked form is as long as the key, up to 32 characters. *)
Theorem maskApiKey_length (key : string) :
  String.length (maskApiKey key) = Nat.min (String.length key) 32.
Proof. apply mask_length. Qed.

Lemma mask_shape (key : string) :
  take 8 (maskApiKey key) = take 8 key
  /\ drop 8 (maskApiKey key)
     = ApiKeyUtils.repeat "*" (Nat.min 24 (String.length key - 8)).
Proof.
  destruct (Nat.le_gt_cases (String.length key) 8) as [H|H].
  - rewrite (mask_short _ H). split; [reflexivity|].
    replace (String.length key - 8) with 0 by lia. simpl.
    clear - H. revert H.
    do 8 (destruct key as [|? key]; [reflexivity|]).
    destruct key; simpl; [reflexivity | lia].
  - rewrite (mask_long _ H).
    assert (L : String.length (take 8 key) = 8)
      by (rewrite length_take; lia).
    split.
    + rewrite <- L at 1. apply take_app_exact.
    + clear L. revert H.
      do 8 (destruct key as [|? key]; [simpl; lia|]).
      reflexivity.
Qed.

(** The first eight characters of the masked form are those of the
    key, and from the ninth character on it is made of stars only. *)
Theorem maskApiKey_shape (key : string) :
  take 8 (maskApiKey key) = take 8 key
  /\ drop 8 (maskApiKey key)
     = ApiKeyUtils.repeat "*" (Nat.min 24 (String.length key - 8)).
Proof. apply mask_shape. Qed.

(** Masking a masked key changes nothing. *)
Theorem maskApiKey_idempotent (key : string) :
  maskApiKey (maskApiKey key) = maskApiKey key.
Proof.
  destruct (Nat.le_gt_cases (String.length key) 8) as [H|H].
  - now rewrite !(mask_short _ H).
  - assert (L : 8 < String.length (maskApiKey key))
      by (rewrite mask_length; lia).
    rewrite (mask_long _ L).
    destruct (mask_shape key) as [-> _].
    rewrite mask_length, (mask_long _ H).
    do 2 f_equal. lia.
Qed.

(** The masked form depends on the first eight characters and on the
    length only: what follows them is not shown. *)
Theorem maskApiKey_hides_the_rest (key1 key2 : string) :
  String.length key1 = String.length key2 ->
  take 8 key1 = take 8 key2 ->
  maskApiKey key1 = maskApiKey key2.
Proof.
  intros L T.
  destruct (Nat.le_gt_cases (String.length key1) 8) as [H|H].
  - rewrite (mask_short _ H), mask_short by lia.
    rewrite <- (take_all 8 key1 H), T. apply take_all. lia.
  - rewrite (mask_long _ H), mask_long by lia. now rewrite T, L.
Qed.

(** A generated live key is shown as its prefix and stars; a generated
    development key, whose prefix has seven characters, is shown with
    the first character of its random part. *)
Theorem maskApiKey_of_generated_key (name : string) (d1 d2 : draw) :
  (contains_prod_any_casing name
   /\ maskApiKey (generateApiKey name d1 d2)
      = ("pk_live_"
           ++ ApiKeyUtils.repeat
                "*" (Nat.min 24 (String.length (randomKey d1 d2))))%string)
  \/ (~ contains_prod_any_casing name
      /\ maskApiKey (generateApiKey name d1 d2)
         = ("pk_dev_"
              ++ take 1 (randomKey d1 d2)
              ++ ApiKeyUtils.repeat
                   "*" (Nat.min 24 (String.length (randomKey d1 d2) - 1)))%string).
Proof.
  rewrite key_shape. unfold keyPrefix.
  destruct (includes (toLowerCase name) "prod") eqn:E.
  - left. split; [apply includes_prod_iff, E|].
    set (suffix := randomKey d1 d2).
    destruct suffix as [|c suffix]; [reflexivity|].
    rewrite mask_long by (rewrite length_app; simpl; lia).
    rewrite length_app. reflexivity.
  - right. split; [intros C; apply includes_prod_iff in C; congruence|].
    set (suffix := randomKey d1 d2).
    destruct suffix as [|c [|c' suffix]]; [reflexivity | reflexivity |].
    rewrite mask_long by (rewrite length_app; simpl; lia).
    rewrite length_app. simpl. repeat f_equal; lia.
Qed.

Lemma maskApiKey_hides_the_rest_witness :
  maskApiKey "pk_live_abcdefgh" = maskApiKey "pk_live_stuvwxyz".
Proof.
  apply (maskApiKey_hides_the_rest "pk_live_abcdefgh" "pk_live_stuvwxyz");
    reflexivity.
Defined.

End MaskFacts.
(* ------------------------------------------------------------------ *)
(** ** The gated endpoint on every request *)

Section GatedEveryRequest.
Import JsString Json Store Handler GithubSummarizer Serving.

(** Either the request is answered at once, with 400 or 500 and a
    message, or it reaches the look-up of its trimmed key. *)
Lemma gated_cases (now : clock) (req : option Json.value) :
  (exists st msg logs,
      POST now req = Return {| resp := failure st msg; console := logs |}
      /\ (st = 400 \/ st = 500) /\ msg <> "")
  \/ (exists fields apiKey githubUrl,
         req = Some (JObj fields)
         /\ property fields "apiKey" = Some (JStr apiKey)
         /\ property fields "githubUrl" = Some (JStr githubUrl)
         /\ trim apiKey <> "" /\ trim githubUrl <> ""
         /\ POST now req
            = Await (SelectActiveSingle (trim apiKey))
                    (after_lookup now (trim githubUrl))).
Proof.
  destruct req as [[| | | | |fields]|];
    try (left; do 3 eexists; split; [reflexivity|];
         split; [auto | discriminate]).
  unfold POST. simpl.
  destruct (property fields "apiKey") as [[| | |apiKey| |]|] eqn:Ka;
    try (left; do 3 eexists; split; [reflexivity|];
         split; [auto | discriminate]);
    try (simpl; destruct (negb _);
         left; do 3 eexists; (split; [reflexivity|]);
         (split; [auto | discriminate])).
  simpl.
  destruct (String.eqb apiKey "") eqn:Ea; simpl;
    [left; do 3 eexists; split; [reflexivity|];
     split; [auto | discriminate]|].
  destruct (property fields "githubUrl") as [[| | |githubUrl| |]|] eqn:Kg;
    try (left; do 3 eexists; split; [reflexivity|];
         split; [auto | discriminate]);
    try (simpl; destruct (negb _);
         left; do 3 eexists; (split; [reflexivity|]);
         (split; [auto | discriminate])).
  simpl.
  destruct (String.eqb githubUrl "") eqn:Eg; simpl;
    [left; do 3 eexists; split; [reflexivity|];
     split; [auto | discriminate]|].
  destruct (String.eqb (trim apiKey) "") eqn:Ta;
    [left; do 3 eexists; split; [reflexivity|];
     split; [auto | discriminate]|].
  destruct (String.eqb (trim githubUrl) "") eqn:Tg;
    [left; do 3 eexists; split; [reflexivity|];
     split; [auto | discriminate]|].
  right. exists fields, apiKey, githubUrl.
  apply String.eqb_neq in Ta, Tg. repeat split; auto.
Qed.

(** What the look-up can answer. *)
Lemma lookup_cases (e : call_env) (k : string) (t : table) :
  (exists err, fault e = Some err
               /\ exec e (SelectActiveSingle k) t
                  = ({| data := None; error := Some err |}, t))
  \/ (exists r, fault e = None /\ validates_to t k r
                /\ exec e (SelectActiveSingle k) t
                   = ({| data := Some r; error := None |}, t))
  \/ (fault e = None
      /\ exec e (SelectActiveSingle k) t
         = ({| data := None; error := Some no_rows |}, t)).
Proof.
  unfold exec. destruct (fault e) as [err|].
  - left. eauto.
  - right. unfold select_active_single, validates_to.
    destruct (active_matches t k) as [|r [|r' l]]; eauto.
Qed.


Lemma run_await {R : Type} (q : query) (k : reply -> handler R)
      (o : oracle) (n : nat) (t t' : table) (rep : reply) :
  exec (o n) q t = (rep, t') ->
  run (Await q k) o n t = run (k rep) o (S n) t'
  /\ calls (Await q k) o n t = q :: calls (k rep) o (S n) t'.
Proof. intros E. simpl. now rewrite E. Qed.

(** Every way a request can go.  It changes nothing and is turned down
    with a status and a message, or its key validated, it passed the
    limit check and the format check, it is served, and the table is
    the old one (update failed) or the old one with the count of the
    validated record raised. *)
Lemma gated_run_cases (now : clock) (req : option Json.value)
      (o : oracle) (n : nat) (t : table) :
  (snd (run (POST now req) o n t) = t
   /\ status_code (resp (fst (run (POST now req) o n t))) <> 200
   /\ exists st msg,
        resp (fst (run (POST now req) o n t)) = failure st msg
        /\ In st [400; 401; 429; 500] /\ msg <> "")
  \/ (exists apiKey githubUrl r,
         gated_input req apiKey githubUrl
         /\ fault (o n) = None
         /\ validates_to t (trim apiKey) r
         /\ limit_reached r = false
         /\ githubUrlPattern_test (trim githubUrl) = true
         /\ resp (fst (run (POST now req) o n t))
            = success (summary_of (trim githubUrl) (summary_time now) r) r
         /\ ((fault (o (S n)) <> None
              /\ snd (run (POST now req) o n t) = t)
             \/ (fault (o (S n)) = None
                 /\ snd (run (POST now req) o n t)
                    = update_usage (db_now (o (S n))) (id r)
                                   (to_number (usage_count r) + 1)
                                   (update_time now) t))).
Proof.
  pose (turned_down :=
          fun (x : outcome * table) =>
            snd x = t
            /\ status_code (resp (fst x)) <> 200
            /\ exists st msg,
                 resp (fst x) = failure st msg
                 /\ In st [400; 401; 429; 500] /\ msg <> "").
  assert (TD : forall st msg logs,
             In st [400; 401; 429; 500] -> msg <> "" ->
             turned_down ({| resp := failure st msg; console := logs |}, t)).
  { intros st msg logs I M. unfold turned_down. simpl.
    split; [reflexivity|]. split; [|eauto].
    simpl in I. intuition (subst; discriminate). }
  destruct (gated_cases now req)
    as [(st & msg & logs & -> & St & M)
       |(fields & apiKey & githubUrl & Hreq & Ka & Kg & Ba & Bg & ->)].
  { left. apply (TD st msg logs); [simpl; intuition | exact M]. }
  destruct (lookup_cases (o n) (trim apiKey) t)
    as [(err & F & E) | [(r & F & V & E) | (F & E)]];
    destruct (run_await _ (after_lookup now (trim githubUrl)) _ _ _ _ _ E)
      as [-> _]; unfold after_lookup; simpl.
  - left. destruct (String.eqb (code err) "PGRST116");
      apply (TD _ _ []); simpl; auto; discriminate.
  - destruct (limit_reached r) eqn:L;
      [left; apply (TD _ _ []); simpl; auto; discriminate|].
    destruct (githubUrlPattern_test (trim githubUrl)) eqn:U; simpl;
      [|left; apply (TD _ _ []); simpl; auto; discriminate].
    right. exists apiKey, githubUrl, r.
    split; [exists fields; auto|].
    repeat (split; [assumption || reflexivity|]).
    unfold exec. destruct (fault (o (S n))) as [err|]; simpl.
    + split; [reflexivity|]. left. split; [discriminate | reflexivity].
    + split; [reflexivity|]. right. split; reflexivity.
  - left. apply (TD _ _ []); simpl; auto; discriminate.
Qed.

End GatedEveryRequest.
(* ------------------------------------------------------------------ *)
(** ** What a gated request can and cannot do to the table *)

Section GatedFrame.
Import JsString Json Store Handler GithubSummarizer Serving.

Variables (now : clock) (req : option Json.value).
Variables (o : oracle) (n : nat) (t : table).

Lemma same_but_usage_refl (r : api_key) : same_but_usage r r.
Proof. repeat split. Qed.

Lemma update_usage_frame (dbnow i u : string) (c : Z) (l : table) :
  Forall2 same_but_usage l (update_usage dbnow i c u l).
Proof.
  induction l as [|a l IH]; [constructor|].
  unfold update_usage in *. simpl. constructor; [|exact IH].
  destruct (String.eqb (id a) i); repeat split.
Qed.

Lemma frame_columns (l l' : table) :
  Forall2 same_but_usage l l' ->
  map id l' = map id l /\ map key_value l' = map key_value l.
Proof.
  induction 1 as [|a a' l l' (I & _ & K & _) _ [IHi IHk]]; simpl.
  - split; reflexivity.
  - now rewrite I, K, IHi, IHk.
Qed.

(** A request that is not answered 200 leaves the table as it was. *)
Theorem unserved_request_changes_nothing :
  status_code (resp (fst (run (POST now req) o n t))) <> 200 ->
  snd (run (POST now req) o n t) = t.
Proof.
  intros S.
  destruct (gated_run_cases now req o n t)
    as [[E _] | (apiKey & githubUrl & r & _ & _ & _ & _ & _ & R & _)];
    [exact E|].
  exfalso. apply S. now rewrite R.
Qed.

(** A request is answered 200 only if its trimmed key is the key of
    exactly one active record, that record has not reached its limit,
    and the URL has the repository format. *)
Theorem served_only_if_key_validates :
  status_code (resp (fst (run (POST now req) o n t))) = 200 ->
  exists apiKey githubUrl r,
    gated_input req apiKey githubUrl
    /\ In r t /\ key_value r = trim apiKey /\ status r = active
    /\ limit_reached r = false
    /\ githubUrlPattern_test (trim githubUrl) = true.
Proof.
  intros S.
  destruct (gated_run_cases now req o n t)
    as [[_ [N _]] | (apiKey & githubUrl & r & G & _ & V & L & U & _)];
    [contradiction|].
  exists apiKey, githubUrl, r.
  destruct (validates_to_inv _ _ _ V) as (I & K & A). auto 10.
Qed.

(** Whatever the request, the table afterwards has the same records in
    the same order, each with its id, name, key value, status, limit and
    creation time: nothing is added, removed, renamed, switched off or
    given another limit, and both uniqueness constraints still hold. *)
Theorem gated_request_keeps_the_records :
  Forall2 same_but_usage t (snd (run (POST now req) o n t))
  /\ map id (snd (run (POST now req) o n t)) = map id t
  /\ map key_value (snd (run (POST now req) o n t)) = map key_value t.
Proof.
  assert (F : Forall2 same_but_usage t (snd (run (POST now req) o n t))).
  { destruct (gated_run_cases now req o n t)
      as [[-> _] | (? & ? & r & _ & _ & _ & _ & _ & _ & [[_ ->] | [_ ->]])].
    - clear. induction t; constructor; auto using same_but_usage_refl.
    - clear. induction t; constructor; auto using same_but_usage_refl.
    - apply update_usage_frame. }
  split; [exact F | apply frame_columns, F].
Qed.

(** Under the primary-key constraint a request changes at most one
    record, the one its key validated to: the count goes up by one and
    [updated_at] becomes the store's current time. *)
Theorem gated_request_changes_one_record :
  unique_ids t ->
  snd (run (POST now req) o n t) = t
  \/ exists before r after,
       t = (before ++ r :: after)%list
       /\ status r = active
       /\ snd (run (POST now req) o n t)
          = (before
               ++ {| id := id r; name := name r; key_value := key_value r;
                     status := status r;
                     usage_count := Some (to_number (usage_count r) + 1)%Z;
                     usage_limit := usage_limit r;
                     created_at := created_at r;
                     updated_at := db_now (o (S n)) |}
               :: after)%list.
Proof.
  intros U.
  destruct (gated_run_cases now req o n t)
    as [[E _] | (? & ? & r & _ & _ & V & _ & _ & _ & [[_ E] | [_ E]])];
    auto.
  right. destruct (validates_to_inv _ _ _ V) as (I & _ & A).
  destruct (update_usage_one (db_now (o (S n))) (update_time now)
              (to_number (usage_count r) + 1) t r U I)
    as (before & after & Et & Eu).
  exists before, r, after. rewrite E, Eu. auto.
Qed.

(** Requests served one at a time never push a count beyond its limit:
    if every record with a limit is within it before the request, so it
    is afterwards, whatever the request and whatever fails. *)
Theorem gated_request_keeps_within_limit :
  unique_ids t ->
  Forall within_limit t ->
  Forall within_limit (snd (run (POST now req) o n t)).
Proof.
  intros U W.
  destruct (gated_run_cases now req o n t)
    as [[-> _] | (? & ? & r & _ & _ & V & L & _ & _ & [[_ ->] | [_ ->]])];
    auto.
  destruct (validates_to_inv _ _ _ V) as (I & _ & _).
  destruct (update_usage_one (db_now (o (S n))) (update_time now)
              (to_number (usage_count r) + 1) t r U I)
    as (before & after & Et & ->).
  rewrite Et in W. apply Forall_app in W. destruct W as [Wb Wa].
  apply Forall_app. split; [exact Wb|].
  inversion Wa as [|? ? _ Wa']; subst. constructor; [|exact Wa'].
  unfold within_limit, update_updated_at_column, set_usage. simpl.
  intros NZ. unfold limit_reached in L. rewrite NZ in L. simpl in L.
  apply Z.leb_gt in L. lia.
Qed.

End GatedFrame.
(* ------------------------------------------------------------------ *)
(** ** The same key used again and again *)

Section Saturation.
Import JsString Json Store Handler GithubSummarizer Serving.

Variables (now : clock) (req : option Json.value).
Variables (apiKey githubUrl : string) (o : oracle) (limit : Z).

Hypothesis input_ok : gated_input req apiKey githubUrl.
Hypothesis url_ok : githubUrlPattern_test (trim githubUrl) = true.
Hypothesis store_up : forall m, fault (o m) = None.
Hypothesis limit_positive : (0 < limit)%Z.

Lemma validates_after_update (dbnow u : string) (c : Z) (t : table)
      (k : string) (r : api_key) :
  unique_ids t -> validates_to t k r ->
  validates_to (update_usage dbnow (id r) c u t) k
               (update_updated_at_column dbnow (set_usage c u r)).
Proof.
  intros U V.
  destruct (validates_to_inv _ _ _ V) as (I & K & A).
  destruct (update_usage_one dbnow u c t r U I)
    as (before & after & Et & ->).
  unfold validates_to, active_matches in *. rewrite Et in V.
  rewrite filter_app in *. simpl in *.
  rewrite K, A, String.eqb_refl in *. simpl in *.
  destruct (filter _ before) as [|x l]; simpl in *.
  - injection V as ->. reflexivity.
  - injection V as _ V. destruct l; discriminate V.
Qed.

Lemma update_keeps_ids (dbnow i u : string) (c : Z) (t : table) :
  unique_ids t -> unique_ids (update_usage dbnow i c u t).
Proof.
  unfold unique_ids. intros U.
  now rewrite (proj1 (frame_columns _ _ (update_usage_frame dbnow i u c t))).
Qed.

(** One request on a record below its limit. *)
Lemma served_step (n : nat) (t : table) (r : api_key) :
  validates_to t (trim apiKey) r ->
  usage_limit r = Some limit ->
  (to_number (usage_count r) < limit)%Z ->
  run (POST now req) o n t
  = ({| resp := success (summary_of (trim githubUrl) (summary_time now) r) r;
        console := [] |},
     update_usage (db_now (o (S n))) (id r)
                  (to_number (usage_count r) + 1) (update_time now) t)
  /\ List.length (calls (POST now req) o n t) = 2.
Proof.
  intros V L C.
  destruct input_ok as (fields & -> & Ka & Kg & Ba & Bg).
  rewrite (run_gated now fields apiKey githubUrl o n t r
                     Ka Kg Ba Bg (store_up n) V).
  rewrite (calls_gated now fields apiKey githubUrl o n t r
                       Ka Kg Ba Bg (store_up n) V).
  unfold after_lookup, limit_reached. simpl. rewrite L. simpl.
  apply Z.leb_gt in C. rewrite C, andb_false_r, url_ok. simpl.
  unfold exec. rewrite (store_up (S n)). split; reflexivity.
Qed.

(** One request on a record at its limit. *)
Lemma refused_step (n : nat) (t : table) (r : api_key) :
  validates_to t (trim apiKey) r ->
  usage_limit r = Some limit ->
  (limit <= to_number (usage_count r))%Z ->
  run (POST now req) o n t
  = ({| resp := failure 429 "API key usage limit exceeded";
        console := [] |}, t)
  /\ List.length (calls (POST now req) o n t) = 1.
Proof.
  intros V L C.
  destruct input_ok as (fields & -> & Ka & Kg & Ba & Bg).
  rewrite (run_gated now fields apiKey githubUrl o n t r
                     Ka Kg Ba Bg (store_up n) V).
  rewrite (calls_gated now fields apiKey githubUrl o n t r
                       Ka Kg Ba Bg (store_up n) V).
  unfold after_lookup, limit_reached. simpl. rewrite L. simpl.
  apply Z.leb_le in C. rewrite C.
  replace (limit =? 0)%Z with false by (symmetry; apply Z.eqb_neq; lia).
  split; reflexivity.
Qed.

(** A key with [left] units left, used [m] times in a row while the
    store is up: the first [min m left] requests are answered 200, all
    later ones 429, and the count ends at [min (count + m) limit]. *)
Theorem repeated_use_stops_at_the_limit (m : nat) :
  forall (n : nat) (t : table) (r : api_key),
    unique_ids t ->
    validates_to t (trim apiKey) r ->
    usage_limit r = Some limit ->
    (to_number (usage_count r) <= limit)%Z ->
    map (fun out => status_code (resp out))
        (fst (run_all (List.repeat (POST now req) m) o n t))
    = (List.repeat 200 (Nat.min m (Z.to_nat (limit - to_number (usage_count r))))
         ++ List.repeat 429 (m - Z.to_nat (limit - to_number (usage_count r))))%list
    /\ exists r',
         validates_to (snd (run_all (List.repeat (POST now req) m) o n t))
                      (trim apiKey) r'
         /\ to_number (usage_count r')
            = Z.min (to_number (usage_count r) + Z.of_nat m) limit.
Proof.
  induction m as [|m IH]; intros n t r U V L C.
  - simpl. split; [reflexivity|]. exists r. split; [exact V | lia].
  - destruct (Z.lt_ge_cases (to_number (usage_count r)) limit) as [Lt|Ge].
    + destruct (served_step n t r V L Lt) as [Run Len].
      simpl. rewrite Run, Len.
      set (t1 := update_usage _ _ _ _ t).
      set (r1 := update_updated_at_column (db_now (o (S n)))
                   (set_usage (to_number (usage_count r) + 1)
                              (update_time now) r)).
      assert (V1 : validates_to t1 (trim apiKey) r1)
        by (apply validates_after_update; assumption).
      assert (U1 : unique_ids t1) by (apply update_keeps_ids; assumption).
      assert (C1 : to_number (usage_count r1)
                   = (to_number (usage_count r) + 1)%Z) by reflexivity.
      destruct (IH (n + 2) t1 r1 U1 V1 L ltac:(lia)) as [St (r' & V' & C')].
      destruct (run_all (List.repeat (POST now req) m) o (n + 2) t1)
        as [outs t2].
      cbn [fst snd map resp status_code success] in *. split.
      * assert (HX : Z.to_nat (limit - to_number (usage_count r))
                     = S (Z.to_nat (limit - to_number (usage_count r1))))
          by (rewrite C1; lia).
        rewrite St, HX. reflexivity.
      * exists r'. split; [exact V'|]. rewrite C', C1. lia.
    + destruct (refused_step n t r V L Ge) as [Run Len].
      simpl. rewrite Run, Len.
      destruct (IH (n + 1) t r U V L C) as [St (r' & V' & C')].
      destruct (run_all (List.repeat (POST now req) m) o (n + 1) t)
        as [outs t2].
      cbn [fst snd map resp status_code failure] in *. split.
      * rewrite St.
        replace (Z.to_nat (limit - to_number (usage_count r))) with 0 by lia.
        rewrite Nat.min_0_r, !Nat.sub_0_r. reflexivity.
      * exists r'. split; [exact V'|]. rewrite C'. lia.
Qed.

End Saturation.
(* ------------------------------------------------------------------ *)
(** ** The total shown on the dashboard *)

Section TotalUsage.
Import JsString Json Store Handler GithubSummarizer Serving ApiKeyUtils.

Lemma count_or_zero (c : option Z) :
  (if nonzero c then to_number c else 0%Z) = to_number c.
Proof.
  destruct c as [z|]; simpl; [|reflexivity].
  destruct (Z.eqb_spec z 0); simpl; congruence.
Qed.

Lemma total_from (l : list api_key) :
  forall acc,
    fold_left
      (fun sum key =>
         (sum + (if nonzero (usage_count key)
                 then to_number (usage_count key) else 0))%Z) l acc
    = (acc + calculateTotalUsage l)%Z.
Proof.
  unfold calculateTotalUsage.
  induction l as [|a l IH]; intros acc; simpl; [lia|].
  set (x := if nonzero (usage_count a)
            then to_number (usage_count a) else 0%Z).
  rewrite (IH (acc + x)%Z), (IH x). lia.
Qed.

Lemma total_cons (a : api_key) (l : list api_key) :
  calculateTotalUsage (a :: l)
  = (to_number (usage_count a) + calculateTotalUsage l)%Z.
Proof.
  unfold calculateTotalUsage at 1. simpl.
  rewrite total_from, count_or_zero. reflexivity.
Qed.

Lemma total_app (a b : list api_key) :
  calculateTotalUsage (a ++ b)%list
  = (calculateTotalUsage a + calculateTotalUsage b)%Z.
Proof.
  induction a as [|x a IH]; simpl.
  - change (calculateTotalUsage []) with 0%Z. reflexivity.
  - rewrite !total_cons, IH. lia.
Qed.

(** The total does not depend on the order in which the records are
    listed, and a null count weighs nothing. *)
Theorem calculateTotalUsage_any_order (a b : list api_key) :
  Permutation a b -> calculateTotalUsage a = calculateTotalUsage b.
Proof.
  induction 1 as [|x a b _ IH|x y a|a b c _ IHab _ IHbc].
  - reflexivity.
  - now rewrite !total_cons, IH.
  - rewrite !total_cons. lia.
  - congruence.
Qed.

(** A request that is answered 200 and whose update the store accepts
    raises the total by exactly one. *)
Theorem served_request_adds_one_to_the_total
        (now : clock) (req : option Json.value) (o : oracle) (n : nat)
        (t : table) :
  unique_ids t ->
  status_code (resp (fst (run (POST now req) o n t))) = 200 ->
  fault (o (S n)) = None ->
  calculateTotalUsage (snd (run (POST now req) o n t))
  = (calculateTotalUsage t + 1)%Z.
Proof.
  intros U St F.
  destruct (gated_run_cases now req o n t)
    as [[_ [N _]] | (? & ? & r & _ & _ & V & _ & _ & _ & [[N _] | [_ E]])];
    try contradiction.
  destruct (validates_to_inv _ _ _ V) as (I & _ & _).
  destruct (update_usage_one (db_now (o (S n))) (update_time now)
              (to_number (usage_count r) + 1) t r U I)
    as (before & after & Et & Eu).
  rewrite E, Eu, Et, !total_app, !total_cons. simpl. lia.
Qed.

End TotalUsage.

(* ------------------------------------------------------------------ *)
(** ** Trimming *)

Section TrimFacts.
Import JsString.

Lemma trimEnd_idempotent (s : string) : trimEnd (trimEnd s) = trimEnd s.
Proof.
  induction s as [|c s IH]; [reflexivity|].
  simpl. destruct (trimEnd s) as [|d t] eqn:E.
  - destruct (is_white_space c) eqn:W; simpl; [reflexivity|].
    now rewrite W.
  - change (trimEnd (String c (String d t))) with
      (match trimEnd (String d t) with
       | EmptyString => if is_white_space c then EmptyString
                        else String c EmptyString
       | u => String c u
       end).
    now rewrite IH.
Qed.

Lemma trimStart_of_trimEnd (s : string) :
  trimStart s = s -> trimStart (trimEnd s) = trimEnd s.
Proof.
  destruct s as [|c s]; [reflexivity|].
  simpl. destruct (is_white_space c) eqn:W.
  - intros H. exfalso.
    assert (L : String.length (trimStart s) <= String.length s).
    { clear. induction s as [|d s IH]; simpl; [lia|].
      destruct (is_white_space d); simpl; lia. }
    rewrite H in L. simpl in L. lia.
  - intros _. destruct (trimEnd s); simpl; now rewrite W.
Qed.

Lemma trimStart_idempotent (s : string) :
  trimStart (trimStart s) = trimStart s.
Proof.
  induction s as [|c s IH]; [reflexivity|].
  simpl. destruct (is_white_space c) eqn:W; [exact IH|].
  simpl. now rewrite W.
Qed.

(** Trimming twice is trimming once. *)
Lemma trim_idempotent (s : string) : trim (trim s) = trim s.
Proof.
  unfold trim.
  rewrite (trimStart_of_trimEnd _ (trimStart_idempotent s)).
  apply trimEnd_idempotent.
Qed.

End TrimFacts.
(* ------------------------------------------------------------------ *)
(** ** The shape of every answer *)

Section EveryAnswer.
Import JsString Json Store Handler Serving.


(** Either the validation request is answered at once, with 400 or 500
    and a message, or it reaches the look-up of its trimmed key. *)
Lemma validate_cases (req : option Json.value) :
  (exists st msg logs,
      ValidateKey.POST req
      = Return {| resp := ValidateKey.failure st msg; console := logs |}
      /\ (st = 400 \/ st = 500) /\ msg <> "")
  \/ (exists apiKey,
         key_input req apiKey
         /\ ValidateKey.POST req
            = Await (SelectActiveSingle (trim apiKey))
                    ValidateKey.after_lookup).
Proof.
  destruct req as [[| | | | |fields]|];
    try (left; do 3 eexists; split; [reflexivity|];
         split; [auto | discriminate]).
  unfold ValidateKey.POST. simpl.
  destruct (property fields "apiKey") as [[| | |apiKey| |]|] eqn:Ka;
    try (left; do 3 eexists; split; [reflexivity|];
         split; [auto | discriminate]);
    try (simpl; destruct (negb _);
         left; do 3 eexists; (split; [reflexivity|]);
         (split; [auto | discriminate])).
  simpl.
  destruct (String.eqb apiKey "") eqn:Ea; simpl;
    [left; do 3 eexists; split; [reflexivity|];
     split; [auto | discriminate]|].
  destruct (String.eqb (trim apiKey) "") eqn:Ta;
    [left; do 3 eexists; split; [reflexivity|];
     split; [auto | discriminate]|].
  right. exists apiKey. split; [|reflexivity].
  exists fields. apply String.eqb_neq in Ta. auto.
Qed.

(** Every way a validation request can go: the table is left as it
    was, and the answer is a failure with one of the statuses 400, 404,
    500 and a message that is not empty, or 200 with [valid: true] and
    the public fields of the one active record that holds the trimmed
    key. *)
Lemma validate_run_cases (req : option Json.value) (o : oracle) (n : nat)
      (t : table) :
  snd (run (ValidateKey.POST req) o n t) = t
  /\ ((exists st msg,
          fst (run (ValidateKey.POST req) o n t)
          = {| resp := ValidateKey.failure st msg;
               console := console (fst (run (ValidateKey.POST req) o n t)) |}
          /\ In st [400; 404; 500] /\ msg <> "")
      \/ (exists apiKey r,
             key_input req apiKey
             /\ fault (o n) = None
             /\ validates_to t (trim apiKey) r
             /\ fst (run (ValidateKey.POST req) o n t)
                = {| resp := {| status_code := 200;
                                body := JObj [("valid", JBool true);
                                              ("data",
                                               ValidateKey.key_data r)] |};
                     console := [] |})).
Proof.
  destruct (validate_cases req)
    as [(st & msg & logs & -> & St & M) | (apiKey & K & ->)].
  { split; [reflexivity|]. left. exists st, msg. simpl. intuition. }
  destruct (lookup_cases (o n) (trim apiKey) t)
    as [(err & F & E) | [(r & F & V & E) | (F & E)]];
    destruct (run_await _ ValidateKey.after_lookup _ _ _ _ _ E) as [-> _];
    unfold ValidateKey.after_lookup; simpl.
  - destruct (String.eqb (code err) "PGRST116"); simpl;
      (split; [reflexivity|]); left;
      do 2 eexists; (split; [reflexivity|]);
      (split; [simpl; auto | discriminate]).
  - split; [reflexivity|]. right. exists apiKey, r. auto.
  - split; [reflexivity|]. left.
    do 2 eexists; (split; [reflexivity|]);
      (split; [simpl; auto | discriminate]).
Qed.

(** Every answer of the validation endpoint is a failure with one of
    the statuses 400, 404, 500, [valid: false] and a message that is
    not empty, or the 200 answer with [valid: true] and the public
    fields of a record. *)
Theorem validation_answers
        (req : option Json.value) (o : oracle) (n : nat) (t : table) :
  (exists st msg,
      resp (fst (run (ValidateKey.POST req) o n t))
      = ValidateKey.failure st msg
      /\ In st [400; 404; 500] /\ msg <> "")
  \/ (exists r,
         resp (fst (run (ValidateKey.POST req) o n t))
         = {| status_code := 200;
              body := JObj [("valid", JBool true);
                            ("data", ValidateKey.key_data r)] |}).
Proof.
  destruct (validate_run_cases req o n t)
    as [_ [(st & msg & E & I & M) | (apiKey & r & _ & _ & _ & E)]].
  - left. exists st, msg. rewrite E. auto.
  - right. exists r. now rewrite E.
Qed.

(** The validation endpoint answers [valid: true] only for a trimmed
    key held by an active record of the table, and then shows that
    record's public fields. *)
Theorem valid_only_for_an_active_record
        (req : option Json.value) (o : oracle) (n : nat) (t : table) :
  status_code (resp (fst (run (ValidateKey.POST req) o n t))) = 200 ->
  exists apiKey r,
    key_input req apiKey
    /\ In r t /\ key_value r = trim apiKey /\ status r = active
    /\ body (resp (fst (run (ValidateKey.POST req) o n t)))
       = JObj [("valid", JBool true); ("data", ValidateKey.key_data r)].
Proof.
  intros St.
  destruct (validate_run_cases req o n t)
    as [_ [(st & msg & E & I & _) | (apiKey & r & K & _ & V & E)]].
  - exfalso. rewrite E in St. simpl in St. subst st.
    simpl in I. intuition discriminate.
  - exists apiKey, r.
    destruct (validates_to_inv _ _ _ V) as (I & Kv & A).
    rewrite E. auto 6.
Qed.

(** Surrounding white space in the submitted key is of no consequence:
    the request with the key and the request with the trimmed key are
    handled alike. *)
Theorem validation_ignores_surrounding_space
        (fields1 fields2 : list (string * Json.value)) (apiKey : string) :
  property fields1 "apiKey" = Some (JStr apiKey) ->
  property fields2 "apiKey" = Some (JStr (trim apiKey)) ->
  trim apiKey <> "" ->
  ValidateKey.POST (Some (JObj fields1))
  = ValidateKey.POST (Some (JObj fields2)).
Proof.
  intros K1 K2 B.
  rewrite (validate_reaches_lookup _ _ K1 B).
  rewrite (validate_reaches_lookup fields2 (trim apiKey) K2);
    rewrite trim_idempotent; [reflexivity | exact B].
Qed.

End EveryAnswer.
(* ------------------------------------------------------------------ *)
(** ** The browser-side helpers, end to end *)

Section EndToEndCallers.
Import JsString Json Store Handler Serving Browser.

Lemma run_and_then {A B : Type} (h : handler A) (f : A -> B)
      (o : oracle) :
  forall (n : nat) (t : table),
    run (and_then h f) o n t = (f (fst (run h o n t)), snd (run h o n t))
    /\ calls (and_then h f) o n t = calls h o n t.
Proof.
  induction h as [a|q k IH]; intros n t; simpl; [auto|].
  destruct (exec (o n) q t) as [rep t'].
  destruct (IH rep (S n) t') as [-> ->]. auto.
Qed.

Lemma message_or_unknown_not_empty (m : string) :
  message_or_unknown m <> "".
Proof.
  unfold message_or_unknown.
  destruct (String.eqb_spec m ""); [discriminate | assumption].
Qed.

Lemma message_or_unknown_same (m : string) :
  m <> "" -> message_or_unknown m = m.
Proof.
  intros H. unfold message_or_unknown.
  apply String.eqb_neq in H. now rewrite H.
Qed.

Lemma shown_message (m : string) (d : Json.value) :
  m <> "" -> to_string (or_else (Some (JStr m)) d) = m.
Proof.
  intros H. unfold or_else. simpl.
  apply String.eqb_neq in H. now rewrite H.
Qed.

Lemma validation_failure_seen (st : nat) (msg : string) :
  In st [400; 404; 500] -> msg <> "" ->
  ApiValidation.after_response (ValidateKey.failure st msg)
  = ApiValidation.failed msg.
Proof.
  intros I M. apply String.eqb_neq in M.
  simpl in I. destruct I as [<-|[<-|[<-|[]]]];
    unfold ApiValidation.after_response, ApiValidation.failed,
           or_else, message_or_unknown;
    simpl; rewrite M; simpl; rewrite ?M; reflexivity.
Qed.


Lemma validateApiKey_sends (k : string) (net : network) :
  k <> "" ->
  ApiValidation.validateApiKey (Some (JStr k)) net
  = match net with
    | RequestLost message => Return (ApiValidation.failed message)
    | ResponseLost message =>
        and_then (ValidateKey.POST
                    (Some (JObj [("apiKey", JStr (trim k))])))
                 (fun _ => ApiValidation.failed message)
    | Delivered =>
        and_then (ValidateKey.POST
                    (Some (JObj [("apiKey", JStr (trim k))])))
                 (fun out => ApiValidation.after_response (resp out))
    end.
Proof.
  intros H. apply String.eqb_neq in H.
  unfold ApiValidation.validateApiKey, truthy, is_string.
  rewrite H. reflexivity.
Qed.

(** Every way a call of [validateApiKey] can go. *)
Lemma validateApiKey_cases (apiKey : option Json.value) (net : network)
      (o : oracle) (n : nat) (t : table) :
  snd (run (ApiValidation.validateApiKey apiKey net) o n t) = t
  /\ ((exists k r,
          apiKey = Some (JStr k)
          /\ In r t /\ key_value r = trim k /\ status r = active
          /\ fst (run (ApiValidation.validateApiKey apiKey net) o n t)
             = {| ApiValidation.success := true;
                  ApiValidation.valid := Some (JBool true);
                  ApiValidation.data := ValidateKey.key_data r;
                  ApiValidation.error := JNull |})
      \/ (exists msg,
             msg <> ""
             /\ fst (run (ApiValidation.validateApiKey apiKey net) o n t)
                = {| ApiValidation.success := false;
                     ApiValidation.valid := Some (JBool false);
                     ApiValidation.data := JNull;
                     ApiValidation.error := JStr msg |})).
Proof.
  assert (Failed : forall m,
             exists msg, msg <> ""
                         /\ ApiValidation.failed m
                            = {| ApiValidation.success := false;
                                 ApiValidation.valid := Some (JBool false);
                                 ApiValidation.data := JNull;
                                 ApiValidation.error := JStr msg |}).
  { intros m. exists (message_or_unknown m).
    split; [apply message_or_unknown_not_empty | reflexivity]. }
  destruct apiKey as [[| b | z | k | l | f]|];
    try (split; [reflexivity | right; apply Failed]);
    try (unfold ApiValidation.validateApiKey; simpl; destruct (negb _);
         simpl; (split; [reflexivity | right; apply Failed])).
  destruct (String.eqb_spec k "") as [->|Hk];
    [split; [reflexivity | right; apply Failed]|].
  rewrite (validateApiKey_sends k net Hk).
  remember (Some (JObj [("apiKey", JStr (trim k))])) as request eqn:Rq.
  destruct (validate_run_cases request o n t) as [T C].
  destruct net as [|m|m];
    try (split; [reflexivity | right; apply Failed]).
  - match goal with
    | |- context [run (and_then ?h ?f) o n t] =>
        destruct (run_and_then h f o n t) as [-> _]
    end.
    cbn [fst snd]. split; [exact T|].
    destruct C as [(st & msg & -> & I & M) | (k' & r & K & _ & V & ->)];
      cbn [resp].
    + right. rewrite (validation_failure_seen _ _ I M). apply Failed.
    + left. exists k, r.
      destruct K as (fields & Hreq & Kp & _).
      rewrite Rq in Hreq.
      injection Hreq as <-. simpl in Kp. injection Kp as <-.
      rewrite trim_idempotent in V.
      destruct (validates_to_inv _ _ _ V) as (I & Kv & A). auto 6.
  - match goal with
    | |- context [run (and_then ?h ?f) o n t] =>
        destruct (run_and_then h f o n t) as [-> _]
    end.
    cbn [fst snd]. split; [exact T | right; apply Failed].
Qed.

(** [validateApiKey] never changes the table.  It reports a valid key,
    with the record's public fields, only when the trimmed key is held
    by an active record; every other call is reported as a failure
    with [valid: false], no data and a message that is not empty. *)
Theorem validateApiKey_end_to_end (apiKey : option Json.value)
        (net : network) (o : oracle) (n : nat) (t : table) :
  snd (run (ApiValidation.validateApiKey apiKey net) o n t) = t
  /\ ((exists k r,
          apiKey = Some (JStr k)
          /\ In r t /\ key_value r = trim k /\ status r = active
          /\ fst (run (ApiValidation.validateApiKey apiKey net) o n t)
             = {| ApiValidation.success := true;
                  ApiValidation.valid := Some (JBool true);
                  ApiValidation.data := ValidateKey.key_data r;
                  ApiValidation.error := JNull |})
      \/ (exists msg,
             msg <> ""
             /\ fst (run (ApiValidation.validateApiKey apiKey net) o n t)
                = {| ApiValidation.success := false;
                     ApiValidation.valid := Some (JBool false);
                     ApiValidation.data := JNull;
                     ApiValidation.error := JStr msg |})).
Proof. apply validateApiKey_cases. Qed.

(** The notification is "Valid API key", of type success, exactly when
    the key is reported valid; otherwise it is the error message of the
    result, of type error. *)
Theorem validateApiKeyWithNotification_shows
        (apiKey : option Json.value) (net : network)
        (o : oracle) (n : nat) (t : table) :
  (ApiValidation.valid
     (fst (fst (run (ApiValidation.validateApiKeyWithNotification apiKey net)
                    o n t))) = Some (JBool true)
   /\ snd (fst (run (ApiValidation.validateApiKeyWithNotification apiKey net)
                    o n t)) = (JStr "Valid API key", "success"))
  \/ (exists msg,
         msg <> ""
         /\ ApiValidation.valid
              (fst (fst (run (ApiValidation.validateApiKeyWithNotification
                                apiKey net) o n t))) = Some (JBool false)
         /\ ApiValidation.error
              (fst (fst (run (ApiValidation.validateApiKeyWithNotification
                                apiKey net) o n t))) = JStr msg
         /\ snd (fst (run (ApiValidation.validateApiKeyWithNotification
                             apiKey net) o n t)) = (JStr msg, "error")).
Proof.
  unfold ApiValidation.validateApiKeyWithNotification.
  match goal with
  | |- context [run (and_then ?h ?f) o n t] =>
      destruct (run_and_then h f o n t) as [-> _]
  end.
  destruct (validateApiKey_cases apiKey net o n t)
    as [_ [(k & r & _ & _ & _ & _ & ->) | (msg & M & ->)]]; simpl.
  - left. auto.
  - right. exists msg. unfold or_else. simpl.
    apply String.eqb_neq in M. rewrite M. simpl.
    apply String.eqb_neq in M. auto.
Qed.


Lemma pattern_not_empty (s : string) :
  GithubSummarizer.githubUrlPattern_test s = true -> s <> "".
Proof. intros H ->. discriminate H. Qed.

Lemma trimmed_url_not_blank (u : string) :
  GithubSummarizer.githubUrlPattern_test (trim u) = true ->
  u <> "" /\ trim (trim u) <> "".
Proof.
  intros H. split.
  - intros ->. discriminate H.
  - rewrite trim_idempotent. now apply pattern_not_empty.
Qed.

Lemma summarize_sends (now : GithubSummarizer.clock) (k u : string)
      (options : Json.value) (net : network) :
  k <> "" ->
  GithubSummarizer.githubUrlPattern_test (trim u) = true ->
  GithubSummarizerUtils.summarizeGithubRepo
    now (Some (JStr k)) (Some (JStr u)) options net
  = match net with
    | RequestLost message => Return (GithubSummarizerUtils.failed message)
    | ResponseLost message =>
        and_then (GithubSummarizer.POST
                    now (Some (JObj [("apiKey", JStr (trim k));
                                     ("githubUrl", JStr (trim u));
                                     ("options", options)])))
                 (fun _ => GithubSummarizerUtils.failed message)
    | Delivered =>
        and_then (GithubSummarizer.POST
                    now (Some (JObj [("apiKey", JStr (trim k));
                                     ("githubUrl", JStr (trim u));
                                     ("options", options)])))
                 (fun out => GithubSummarizerUtils.after_response (resp out))
    end.
Proof.
  intros Hk Hu. destruct (trimmed_url_not_blank u Hu) as [Hu' _].
  apply String.eqb_neq in Hk, Hu'.
  unfold GithubSummarizerUtils.summarizeGithubRepo, truthy, is_string.
  rewrite Hk, Hu', Hu. reflexivity.
Qed.





(** Through [summarizeGithubRepo] a key that validates to a record
    below its limit is always served when the request is delivered:
    the helper has checked the URL format before sending, so the
    route's own format check cannot turn the request down. *)
Theorem summarizeGithubRepo_serves_a_valid_key
        (now : GithubSummarizer.clock) (k u : string) (options : Json.value)
        (o : oracle) (n : nat) (t : table) (r : api_key) :
  trim k <> "" ->
  GithubSummarizer.githubUrlPattern_test (trim u) = true ->
  fault (o n) = None ->
  validates_to t (trim k) r ->
  GithubSummarizer.limit_reached r = false ->
  fst (run (GithubSummarizerUtils.summarizeGithubRepo
              now (Some (JStr k)) (Some (JStr u)) options Delivered) o n t)
  = {| GithubSummarizerUtils.success := true;
       GithubSummarizerUtils.data :=
         GithubSummarizer.summary_of
           (trim u) (GithubSummarizer.summary_time now) r;
       GithubSummarizerUtils.usage :=
         JObj [("current", JNum (to_number (usage_count r) + 1));
               ("limit", of_nullable (usage_limit r))];
       GithubSummarizerUtils.error := JNull |}.
Proof.
  intros Bk Hu F V L.
  assert (Hk : k <> "") by (intros ->; now apply Bk).
  destruct (trimmed_url_not_blank u Hu) as [_ Bu].
  rewrite (summarize_sends now k u options Delivered Hk Hu).
  match goal with
  | |- context [run (and_then ?h ?f) o n t] =>
      destruct (run_and_then h f o n t) as [-> _]
  end.
  cbn [fst].
  rewrite <- (trim_idempotent k) in V, Bk.
  rewrite (run_gated now [("apiKey", JStr (trim k));
                          ("githubUrl", JStr (trim u));
                          ("options", options)]
                     (trim k) (trim u) o n t r
                     eq_refl eq_refl Bk Bu F V).
  unfold GithubSummarizer.after_lookup. simpl.
  rewrite L, trim_idempotent, Hu. simpl.
  destruct (exec (o (S n)) _ t) as [rep t']. reflexivity.
Qed.

(** Without a URL of the repository format [summarizeGithubRepo] sends
    nothing: no store call is made, the table is left as it was, and
    the result is a failure. *)
Theorem summarizeGithubRepo_checks_before_sending
        (now : GithubSummarizer.clock)
        (apiKey githubUrl : option Json.value) (options : Json.value)
        (net : network) (o : oracle) (n : nat) (t : table) :
  GithubSummarizerUtils.isValidGithubUrl githubUrl = false ->
  calls (GithubSummarizerUtils.summarizeGithubRepo
           now apiKey githubUrl options net) o n t = []
  /\ snd (run (GithubSummarizerUtils.summarizeGithubRepo
                 now apiKey githubUrl options net) o n t) = t
  /\ GithubSummarizerUtils.success
       (fst (run (GithubSummarizerUtils.summarizeGithubRepo
                    now apiKey githubUrl options net) o n t)) = false.
Proof.
  intros H. unfold GithubSummarizerUtils.summarizeGithubRepo.
  destruct (negb (truthy apiKey) || negb (is_string apiKey));
    [repeat split|].
  unfold GithubSummarizerUtils.isValidGithubUrl in H.
  destruct (negb (truthy githubUrl) || negb (is_string githubUrl));
    [repeat split|].
  destruct apiKey as [[| | |k| |]|]; try (repeat split; fail);
    destruct githubUrl as [[| | |u| |]|]; try (repeat split; fail).
  rewrite H. repeat split.
Qed.

(** A key made of white space only passes the checks of both helpers,
    is sent as the empty string, and is turned down by the route as a
    missing key, before any store call. *)
Theorem blank_key_is_reported_missing
        (now : GithubSummarizer.clock) (k u : string) (options : Json.value)
        (o : oracle) (n : nat) (t : table) :
  k <> "" -> trim k = "" ->
  GithubSummarizer.githubUrlPattern_test (trim u) = true ->
  (run (ApiValidation.validateApiKey (Some (JStr k)) Delivered) o n t
   = (ApiValidation.failed "API key is required and must be a string", t)
   /\ calls (ApiValidation.validateApiKey (Some (JStr k)) Delivered) o n t
      = [])
  /\ (run (GithubSummarizerUtils.summarizeGithubRepo
             now (Some (JStr k)) (Some (JStr u)) options Delivered) o n t
      = (GithubSummarizerUtils.failed
           "API key is required and must be a string", t)
      /\ calls (GithubSummarizerUtils.summarizeGithubRepo
                  now (Some (JStr k)) (Some (JStr u)) options Delivered)
               o n t = []).
Proof.
  intros Hk B Hu.
  rewrite (validateApiKey_sends k Delivered Hk).
  rewrite (summarize_sends now k u options Delivered Hk Hu).
  rewrite B. repeat split.
Qed.

End EndToEndCallers.
(* ------------------------------------------------------------------ *)
(** ** What the repository pattern accepts *)

Section RepositoryUrlFacts.
Import JsString GithubSummarizer RepositoryUrl.

Lemma skip_repo_chars_split (s : string) :
  exists owner, s = (owner ++ skip_repo_chars s)%string
                /\ all_repo_chars owner = true.
Proof.
  induction s as [|c s (owner & E & A)]; simpl.
  - exists EmptyString. auto.
  - destruct (repo_char c) eqn:C.
    + exists (String c owner). simpl. rewrite C, A. split; [|reflexivity].
      f_equal. exact E.
    + exists EmptyString. auto.
Qed.

Lemma skip_repo_chars_app (owner tail : string) :
  all_repo_chars owner = true ->
  skip_repo_chars (owner ++ "/" ++ tail)%string = ("/" ++ tail)%string.
Proof.
  induction owner as [|c owner IH]; simpl; intros A; [reflexivity|].
  apply andb_true_iff in A. destruct A as [-> A]. auto.
Qed.

Lemma slash_then_repo_char (x : string) :
  match x with
  | String "/" (String d _) => repo_char d
  | _ => false
  end = true ->
  exists d rest, x = String "/" (String d rest) /\ repo_char d = true.
Proof.
  destruct x as [|slash [|d rest]]; try discriminate;
    destruct slash as [[] [] [] [] [] [] [] []];
    try discriminate; eauto.
Qed.

(** The test of the pattern accepts exactly the strings made of
    [https://github.com/], an owner of one or more characters among
    letters, digits, [_], [-] and [.], a slash and one more such
    character, followed by anything. *)
Theorem githubUrlPattern_accepts (s : string) :
  githubUrlPattern_test s = true <-> matches s.
Proof.
  unfold githubUrlPattern_test, matches. split.
  - intros H. apply andb_true_iff in H. destruct H as [P H].
    apply startsWith_split in P. destruct P as [post ->].
    change (drop 19 ("https://github.com/" ++ post)%string) with post in H.
    destruct post as [|a post]; [discriminate|].
    apply andb_true_iff in H. destruct H as [Ca H].
    destruct (skip_repo_chars_split post) as (owner & E & A).
    apply slash_then_repo_char in H. destruct H as (c & rest & S & C).
    rewrite S in E.
    exists (String a owner), c, rest. simpl. rewrite Ca, A.
    repeat split; try discriminate; try assumption.
    do 20 f_equal. exact E.
  - intros (owner & c & rest & -> & N & A & C).
    rewrite startsWith_app.
    change (drop 19 ("https://github.com/" ++ owner ++ "/" ++ String c rest)%string)
      with (owner ++ "/" ++ String c rest)%string.
    destruct owner as [|a owner]; [congruence|].
    simpl in A. apply andb_true_iff in A. destruct A as [Ca A].
    cbn [append]. rewrite Ca.
    change (String "/" (String c rest)) with ("/" ++ String c rest)%string.
    rewrite (skip_repo_chars_app owner (String c rest) A). simpl. exact C.
Qed.

End RepositoryUrlFacts.
(* ------------------------------------------------------------------ *)
(** ** Generated keys and trimming *)

Section GeneratedKeyFacts.
Import JsString KeyGen ApiKeyUtils.

Lemma no_white_space_app (a b : string) :
  no_white_space (a ++ b)%string = no_white_space a && no_white_space b.
Proof.
  induction a as [|c a IH]; simpl; [reflexivity|].
  now rewrite IH, andb_assoc.
Qed.

Lemma no_white_space_drop (n : nat) :
  forall s, no_white_space s = true -> no_white_space (drop n s) = true.
Proof.
  induction n as [|n IH]; intros [|c s] H; simpl in *; auto.
  apply andb_true_iff in H. apply IH, H.
Qed.

Lemma no_white_space_take (n : nat) :
  forall s, no_white_space s = true -> no_white_space (take n s) = true.
Proof.
  induction n as [|n IH]; intros [|c s] H; simpl in *; auto.
  apply andb_true_iff in H. destruct H as [-> H]. simpl. auto.
Qed.

Lemma trimEnd_clean (s : string) :
  no_white_space s = true -> trimEnd s = s.
Proof.
  induction s as [|c s IH]; simpl; intros H; [reflexivity|].
  apply andb_true_iff in H. destruct H as [C H].
  rewrite (IH H). apply negb_true_iff in C. rewrite C.
  now destruct s.
Qed.

Lemma trim_clean (s : string) : no_white_space s = true -> trim s = s.
Proof.
  intros H. unfold trim.
  replace (trimStart s) with s; [now apply trimEnd_clean|].
  destruct s as [|c s]; [reflexivity|]. simpl in *.
  apply andb_true_iff in H. destruct H as [C _].
  apply negb_true_iff in C. now rewrite C.
Qed.

(** A generated key is never empty, and when the renderings of the two
    draws contain no white space (digits never do) it is left as it is
    by the trimming that both routes apply to a submitted key. *)
Theorem generated_key_survives_trimming (name : string) (d1 d2 : draw) :
  no_white_space d1 = true ->
  no_white_space d2 = true ->
  trim (generateApiKey name d1 d2) = generateApiKey name d1 d2
  /\ generateApiKey name d1 d2 <> "".
Proof.
  intros H1 H2. split.
  - apply trim_clean. rewrite key_shape, no_white_space_app.
    apply andb_true_iff. split.
    + unfold keyPrefix. now destruct (includes _ _).
    + unfold randomKey. rewrite no_white_space_app.
      assert (R : forall d, no_white_space d = true ->
                            no_white_space (toString36 d) = true)
        by (intros [|c d] H; [reflexivity | exact H]).
      apply andb_true_iff.
      split; apply no_white_space_take, no_white_space_drop, R; assumption.
  - rewrite key_shape. unfold keyPrefix.
    destruct (includes _ _); discriminate.
Qed.

End GeneratedKeyFacts.

(* ------------------------------------------------------------------ *)
(** ** Creating, updating and deleting keys *)

Section UseApiKeysFacts.
Import JsString Json Store Handler Serving UseApiKeys.

Lemma insert_row_inv (e : call_env) (uuid : string) (k : key_data)
      (t t' : table) (data : list api_key) :
  insert_row e uuid k t = (inl data, t') ->
  (forall r, In r t -> id r <> uuid /\ key_value r <> new_key_value k)
  /\ data = [{| id := uuid; name := new_name k;
                key_value := new_key_value k; status := new_status k;
                usage_count := new_usage_count k;
                usage_limit := new_usage_limit k;
                created_at := db_now e; updated_at := db_now e |}]
  /\ t' = (t ++ data)%list.
Proof.
  unfold insert_row. destruct (fault e); [discriminate|].
  destruct (existsb _ t) eqn:E; [discriminate|].
  intros H. injection H as <- <-. split; [|auto].
  intros r I.
  assert (N : String.eqb (id r) uuid
              || String.eqb (key_value r) (new_key_value k) = false).
  { destruct (String.eqb (id r) uuid
              || String.eqb (key_value r) (new_key_value k)) eqn:B;
      [|reflexivity].
    rewrite <- E. symmetry. apply existsb_exists. eauto. }
  apply orb_false_iff in N. destruct N as [N1 N2].
  apply String.eqb_neq in N1, N2. auto.
Qed.

Lemma create_inv (st : state) (e : call_env) (uuid : string)
      (k : key_data) (t : table) :
  returned (createApiKey st e uuid k t) = true ->
  exists data,
    insert_row e uuid k t = (inl data, (t ++ data)%list)
    /\ createApiKey st e uuid k t
       = {| returned := true;
            state_after := {| apiKeys := nth_error data 0 :: apiKeys st;
                              error := None; submitting := false |};
            shown := [created];
            table_after := (t ++ data)%list |}.
Proof.
  unfold createApiKey. destruct (submitting st); [discriminate|].
  destruct (insert_row e uuid k t) as [[data|err] t'] eqn:E;
    [|discriminate].
  intros _. destruct (insert_row_inv _ _ _ _ _ _ E) as (_ & _ & ->).
  eauto.
Qed.

(** A key that was created can be validated at once: when
    [createApiKey] returns [true] for an active key whose value is not
    blank and is its own trimmed form, the table has gained exactly
    that record, the list shown starts with it, and the validation
    endpoint answers 200 with its public fields. *)
Theorem created_key_validates
        (st : state) (e : call_env) (uuid : string) (k : key_data)
        (t : table) (o : oracle) (n : nat) :
  returned (createApiKey st e uuid k t) = true ->
  new_status k = active ->
  trim (new_key_value k) = new_key_value k ->
  new_key_value k <> "" ->
  fault (o n) = None ->
  exists row,
    row = {| id := uuid; name := new_name k;
             key_value := new_key_value k; status := active;
             usage_count := new_usage_count k;
             usage_limit := new_usage_limit k;
             created_at := db_now e; updated_at := db_now e |}
    /\ table_after (createApiKey st e uuid k t) = (t ++ [row])%list
    /\ apiKeys (state_after (createApiKey st e uuid k t))
       = Some row :: apiKeys st
    /\ fst (run (ValidateKey.POST
                   (Some (JObj [("apiKey", JStr (new_key_value k))])))
                o n (table_after (createApiKey st e uuid k t)))
       = {| resp := {| status_code := 200;
                       body := JObj [("valid", JBool true);
                                     ("data", ValidateKey.key_data row)] |};
            console := [] |}.
Proof.
  intros R A T N F.
  destruct (create_inv _ _ _ _ _ R) as (data & I & ->).
  destruct (insert_row_inv _ _ _ _ _ _ I) as (Fresh & -> & _).
  rewrite A. eexists. split; [reflexivity|].
  cbn [table_after state_after apiKeys nth_error].
  split; [reflexivity|]. split; [reflexivity|].
  rewrite <- T in N.
  rewrite (validate_reaches_lookup [("apiKey", JStr (new_key_value k))]
             (new_key_value k) eq_refl N).
  simpl. unfold exec. rewrite F, T.
  rewrite (select_validated _ (new_key_value k)
             {| id := uuid; name := new_name k;
                key_value := new_key_value k; status := active;
                usage_count := new_usage_count k;
                usage_limit := new_usage_limit k;
                created_at := db_now e; updated_at := db_now e |});
    [reflexivity|].
  unfold validates_to, active_matches. rewrite filter_app. simpl.
  rewrite String.eqb_refl. simpl.
  replace (filter _ t) with (@nil api_key); [reflexivity|].
  symmetry. apply (missing_key_matches_nothing t (new_key_value k)).
  intros x Hx. apply (Fresh x Hx).
Qed.

(** A key value that some record already holds is refused: nothing is
    inserted, the table and the list shown stay as they were, and the
    operation returns [false]. *)
Theorem duplicate_key_is_refused
        (st : state) (e : call_env) (uuid : string) (k : key_data)
        (t : table) (r : api_key) :
  In r t -> key_value r = new_key_value k ->
  returned (createApiKey st e uuid k t) = false
  /\ table_after (createApiKey st e uuid k t) = t
  /\ apiKeys (state_after (createApiKey st e uuid k t)) = apiKeys st.
Proof.
  intros I K. unfold createApiKey.
  destruct (submitting st); [auto|].
  destruct (insert_row e uuid k t) as [[data|err] t'] eqn:E.
  - exfalso. destruct (insert_row_inv _ _ _ _ _ _ E) as (Fresh & _).
    now apply (Fresh r I).
  - simpl. unfold insert_row in E. destruct (fault e).
    + injection E as _ <-. auto.
    + destruct (existsb _ t); [|discriminate]. injection E as _ <-. auto.
Qed.


Lemma delete_rows_ok (e : call_env) (keyId : string) (t : table) :
  fault e = None ->
  delete_rows e keyId t
  = (None, filter (fun r => negb (String.eqb (id r) keyId)) t).
Proof. unfold delete_rows. now intros ->. Qed.

Lemma table_after_delete (st : state) (e : call_env) (keyId : string)
      (t : table) :
  fault e = None ->
  table_after (deleteApiKey st e keyId t)
  = filter (fun r => negb (String.eqb (id r) keyId)) t.
Proof.
  intros F. unfold deleteApiKey. rewrite (delete_rows_ok _ _ _ F).
  now destruct (all_defined (apiKeys st)).
Qed.

(** Once the store has accepted the deletion of a record, its key is
    answered like a key that never existed, 404 "Invalid API key", and
    every record with another id is still in the table. *)
Theorem deleted_key_no_longer_validates
        (st : state) (e : call_env) (t : table) (r : api_key)
        (fields : list (string * Json.value)) (apiKey : string)
        (o : oracle) (n : nat) :
  unique_key_values t ->
  In r t ->
  fault e = None ->
  property fields "apiKey" = Some (JStr apiKey) ->
  trim apiKey <> "" ->
  key_value r = trim apiKey ->
  fault (o n) = None ->
  fst (run (ValidateKey.POST (Some (JObj fields))) o n
           (table_after (deleteApiKey st e (id r) t)))
  = {| resp := ValidateKey.failure 404 "Invalid API key"; console := [] |}
  /\ ~ In r (table_after (deleteApiKey st e (id r) t))
  /\ forall x, In x t -> id x <> id r ->
               In x (table_after (deleteApiKey st e (id r) t)).
Proof.
  intros U I F P B K Fo. rewrite (table_after_delete _ _ _ _ F).
  split; [|split].
  - rewrite (validate_reaches_lookup _ _ P B). simpl.
    unfold exec. rewrite Fo.
    rewrite select_not_found; [reflexivity|].
    apply active_matches_none. intros x Hx Ex _.
    apply filter_In in Hx. destruct Hx as [Hx Nx].
    rewrite <- K in Ex.
    rewrite (unique_key_holder t r x U I Hx Ex), String.eqb_refl in Nx.
    discriminate Nx.
  - intros H. apply filter_In in H. destruct H as [_ H].
    rewrite String.eqb_refl in H. discriminate H.
  - intros x Hx Nx. apply filter_In. split; [exact Hx|].
    apply negb_true_iff, String.eqb_neq, Nx.
Qed.

Lemma update_map_other (f : api_key -> api_key) (keyId : string)
      (t : table) :
  (forall x, In x t -> id x <> keyId) ->
  map (fun r => if String.eqb (id r) keyId then f r else r) t = t
  /\ filter (fun r => String.eqb (id r) keyId) t = [].
Proof.
  induction t as [|a t IH]; intros H; [auto|]. simpl.
  assert (N : String.eqb (id a) keyId = false)
    by (apply String.eqb_neq, H; now left).
  rewrite N. destruct IH as [-> ->]; [|auto].
  intros x Hx. apply H. now right.
Qed.

Lemma update_map_one (f : api_key -> api_key) (t : table) (r : api_key) :
  (forall x, id (f x) = id x) ->
  unique_ids t -> In r t ->
  exists before after,
    t = (before ++ r :: after)%list
    /\ map (fun x => if String.eqb (id x) (id r) then f x else x) t
       = (before ++ f r :: after)%list
    /\ filter (fun x => String.eqb (id x) (id r))
              (map (fun x => if String.eqb (id x) (id r) then f x else x) t)
       = [f r].
Proof.
  intros Fid. unfold unique_ids.
  induction t as [|a t IH]; intros U I; [destruct I|].
  simpl in U. inversion U as [|? ? Hnotin Ut]; subst.
  destruct I as [->|I].
  - exists [], t.
    destruct (update_map_other f (id r) t) as [E1 E2].
    { intros x Hx Ex. apply Hnotin. rewrite <- Ex. now apply in_map. }
    simpl. rewrite String.eqb_refl, E1. simpl.
    rewrite Fid, String.eqb_refl, E2. auto.
  - destruct (IH Ut I) as (before & after & Et & Em & Ef).
    exists (a :: before), after.
    assert (N : String.eqb (id a) (id r) = false).
    { apply String.eqb_neq. intros E. apply Hnotin. rewrite E.
      now apply in_map. }
    simpl. rewrite N. simpl. rewrite N, Ef, Em, <- Et. auto.
Qed.

(** Updating a record by its id rewrites that record only: name, status
    and limit are the ones given, [updated_at] is the store's current
    time, and its id, key value, count and creation time are kept; every
    other record, and the order, stay as they were. *)
Theorem update_rewrites_one_record
        (st : state) (e : call_env) (p : update_data) (t : table)
        (r : api_key) :
  unique_ids t ->
  In r t ->
  fault e = None ->
  submitting st = false ->
  exists before after,
    t = (before ++ r :: after)%list
    /\ table_after (updateApiKey st e (id r) p t)
       = (before
            ++ {| id := id r; name := set_name p;
                  key_value := key_value r; status := set_status p;
                  usage_count := usage_count r;
                  usage_limit := set_usage_limit p;
                  created_at := created_at r;
                  updated_at := db_now e |}
            :: after)%list.
Proof.
  intros U I F S.
  destruct (update_map_one
              (fun x => update_updated_at_column (db_now e) (patched p x))
              t r (fun x => eq_refl) U I)
    as (before & after & Et & Em & _).
  exists before, after. split; [exact Et|].
  unfold updateApiKey, update_rows. rewrite S, F, Em.
  now destruct (all_defined (apiKeys st)).
Qed.


Lemma all_defined_of_sync (t : table) (st : state) :
  in_sync t st -> all_defined (apiKeys st) = true.
Proof.
  intros P. apply forallb_forall. intros key I.
  apply (Permutation_in _ (Permutation_sym P)) in I.
  apply in_map_iff in I. now destruct I as (r & <- & _).
Qed.

Lemma filter_keeps_permutation {A : Type} (f : A -> bool) (l l' : list A) :
  Permutation l l' -> Permutation (filter f l) (filter f l').
Proof.
  induction 1 as [|x l l' _ IH|x y l|l l' l'' _ IH1 _ IH2]; simpl.
  - constructor.
  - destruct (f x); [now constructor | exact IH].
  - destruct (f x), (f y); try reflexivity. apply perm_swap.
  - now transitivity (filter f l').
Qed.

Lemma filter_keeps_unique {B : Type} (g : api_key -> B)
      (p : api_key -> bool) (t : table) :
  NoDup (map g t) -> NoDup (map g (filter p t)).
Proof.
  induction t as [|a t IH]; simpl; intros U; [constructor|].
  inversion U as [|? ? N Ut]; subst.
  destruct (p a); [|auto]. simpl. constructor; [|auto].
  intros I. apply N. apply in_map_iff in I.
  destruct I as (x & E & Hx). apply filter_In in Hx.
  rewrite <- E. apply in_map, Hx.
Qed.

Lemma append_keeps_unique {B : Type} (l : list B) (b : B) :
  NoDup l -> ~ In b l -> NoDup (l ++ [b]).
Proof.
  intros U N.
  apply (Permutation_NoDup (Permutation_cons_append l b)).
  now constructor.
Qed.

Lemma insert_row_failed (e : call_env) (uuid : string) (k : key_data)
      (t t' : table) (err : pg_error) :
  insert_row e uuid k t = (inr err, t') -> t' = t.
Proof.
  unfold insert_row. destruct (fault e); [now intros [= _ <-]|].
  destruct (existsb _ t); [now intros [= _ <-] | discriminate].
Qed.

(** Whatever operation is asked for and whatever the store answers, a
    list that shows the table still shows it afterwards, and the
    primary-key and unique-key constraints still hold. *)
Theorem hook_keeps_list_in_sync
        (a : action) (st : state) (e : call_env) (t : table) :
  in_sync t st ->
  unique_ids t ->
  unique_key_values t ->
  in_sync (table_after (perform a st e t)) (state_after (perform a st e t))
  /\ unique_ids (table_after (perform a st e t))
  /\ unique_key_values (table_after (perform a st e t)).
Proof.
  intros P Ui Uk. pose proof (all_defined_of_sync _ _ P) as D.
  unfold in_sync, unique_ids, unique_key_values in *.
  destruct a as [uuid k | keyId p | keyId]; simpl.
  - unfold createApiKey. destruct (submitting st); [auto|].
    destruct (insert_row e uuid k t) as [[data|err] t'] eqn:E.
    + destruct (insert_row_inv _ _ _ _ _ _ E) as (Fresh & -> & ->).
      simpl. rewrite !map_app. simpl. repeat split.
      * apply Permutation_sym.
        apply (Permutation_trans
                 (perm_skip _ (Permutation_sym P))
                 (Permutation_cons_append _ _)).
      * apply append_keeps_unique; [exact Ui|].
        intros I. apply in_map_iff in I. destruct I as (x & Ex & Hx).
        destruct (Fresh x Hx) as [N _]. exact (N Ex).
      * apply append_keeps_unique; [exact Uk|].
        intros I. apply in_map_iff in I. destruct I as (x & Ex & Hx).
        destruct (Fresh x Hx) as [_ N]. exact (N Ex).
    + rewrite (insert_row_failed _ _ _ _ _ _ E). simpl. auto.
  - unfold updateApiKey. destruct (submitting st); [auto|].
    unfold update_rows. destruct (fault e); [simpl; auto|].
    rewrite D. cbn [table_after state_after apiKeys].
    pose (f := fun x => update_updated_at_column (db_now e) (patched p x)).
    pose (f' := fun r => if String.eqb (id r) keyId then f r else r).
    change (map (fun r => if String.eqb (id r) keyId
                          then update_updated_at_column
                                 (db_now e) (patched p r)
                          else r) t) with (map f' t).
    assert (Id : map id (map f' t) = map id t).
    { rewrite map_map. apply map_ext. intros x. unfold f'.
      now destruct (String.eqb (id x) keyId). }
    assert (Kv : map key_value (map f' t) = map key_value t).
    { rewrite map_map. apply map_ext. intros x. unfold f'.
      now destruct (String.eqb (id x) keyId). }
    rewrite Id, Kv. repeat split; try assumption.
    match goal with
    | |- Permutation _ (map ?g _) =>
        apply (Permutation_trans (l' := map g (map Some t)));
          [|apply Permutation_map, P]
    end.
    rewrite !map_map. apply Permutation_refl'.
    apply map_ext_in. intros x Hx. unfold f'.
    destruct (String.eqb_spec (id x) keyId) as [<-|N]; [|reflexivity].
    destruct (update_map_one f t x (fun y => eq_refl) Ui Hx)
      as (_ & _ & _ & _ & ->).
    reflexivity.
  - unfold deleteApiKey, delete_rows.
    destruct (fault e); [simpl; auto|]. rewrite D.
    cbn [table_after state_after apiKeys].
    repeat split; try (apply filter_keeps_unique; assumption).
    match goal with
    | |- Permutation _ (filter ?g _) =>
        apply (Permutation_trans (l' := filter g (map Some t)));
          [|apply filter_keeps_permutation, P]
    end.
    apply Permutation_refl'. clear.
    induction t as [|x t IH]; simpl; [reflexivity|].
    destruct (String.eqb (id x) keyId); simpl; now rewrite IH.
Qed.

End UseApiKeysFacts.
(* ------------------------------------------------------------------ *)
(** ** The properties above at concrete inputs *)

Section MoreInstances.
Import JsString Json Store Handler Serving Scenario Browser UseApiKeys.

Ltac evaluate :=
  vm_compute; try reflexivity; try discriminate; try lia.

Ltac unique := repeat constructor; simpl; tauto.

Lemma unserved_request_changes_nothing_witness :
  snd (run (GithubSummarizer.POST now (gated_request "pk_dev_nobody" repo))
           calm 0 [record (Some 0%Z) (Some 2%Z) active])
  = [record (Some 0%Z) (Some 2%Z) active].
Proof.
  apply (unserved_request_changes_nothing
           now (gated_request "pk_dev_nobody" repo) calm 0
           [record (Some 0%Z) (Some 2%Z) active]).
  evaluate.
Defined.

Lemma served_only_if_key_validates_witness :
  exists apiKey githubUrl r,
    gated_input (gated_request "pk_live_k1" repo) apiKey githubUrl
    /\ In r [record (Some 0%Z) (Some 2%Z) active]
    /\ key_value r = trim apiKey /\ status r = active
    /\ GithubSummarizer.limit_reached r = false
    /\ GithubSummarizer.githubUrlPattern_test (trim githubUrl) = true.
Proof.
  apply (served_only_if_key_validates
           now (gated_request "pk_live_k1" repo) calm 0
           [record (Some 0%Z) (Some 2%Z) active]).
  evaluate.
Defined.

Lemma gated_request_changes_one_record_witness :
  snd (run (GithubSummarizer.POST now (gated_request "pk_live_k1" repo))
           calm 0 [record (Some 0%Z) (Some 2%Z) active])
  = [record (Some 0%Z) (Some 2%Z) active]
  \/ exists before r after,
       [record (Some 0%Z) (Some 2%Z) active] = (before ++ r :: after)%list
       /\ status r = active
       /\ snd (run (GithubSummarizer.POST
                      now (gated_request "pk_live_k1" repo))
                   calm 0 [record (Some 0%Z) (Some 2%Z) active])
          = (before
               ++ {| id := id r; name := name r; key_value := key_value r;
                     status := status r;
                     usage_count := Some (to_number (usage_count r) + 1)%Z;
                     usage_limit := usage_limit r;
                     created_at := created_at r;
                     updated_at := db_now (calm 1) |}
               :: after)%list.
Proof.
  apply (gated_request_changes_one_record
           now (gated_request "pk_live_k1" repo) calm 0
           [record (Some 0%Z) (Some 2%Z) active]).
  unique.
Defined.

Lemma gated_request_keeps_within_limit_witness :
  Forall within_limit
         (snd (run (GithubSummarizer.POST
                      now (gated_request "pk_live_k1" repo))
                   calm 0 [record (Some 1%Z) (Some 2%Z) active])).
Proof.
  apply (gated_request_keeps_within_limit
           now (gated_request "pk_live_k1" repo) calm 0
           [record (Some 1%Z) (Some 2%Z) active]).
  - unique.
  - repeat constructor. unfold within_limit. simpl. lia.
Defined.

Lemma repeated_use_stops_at_the_limit_witness :
  map (fun out => status_code (resp out))
      (fst (run_all
              (List.repeat
                 (GithubSummarizer.POST now (gated_request "pk_live_k1" repo))
                 3)
              calm 0 [record (Some 0%Z) (Some 2%Z) active]))
  = [200; 200; 429].
Proof.
  refine (proj1 (repeated_use_stops_at_the_limit
                   now (gated_request "pk_live_k1" repo) "pk_live_k1" repo
                   calm 2%Z _ _ _ _ 3 0
                   [record (Some 0%Z) (Some 2%Z) active]
                   (record (Some 0%Z) (Some 2%Z) active) _ _ _ _)).
  - exists (gated_fields "pk_live_k1" repo).
    repeat split; evaluate.
  - evaluate.
  - intros m. reflexivity.
  - lia.
  - unique.
  - evaluate.
  - reflexivity.
  - simpl. lia.
Defined.

Lemma calculateTotalUsage_any_order_witness :
  ApiKeyUtils.calculateTotalUsage
    [record (Some 3%Z) (Some 5%Z) active; record None None inactive]
  = ApiKeyUtils.calculateTotalUsage
      [record None None inactive; record (Some 3%Z) (Some 5%Z) active].
Proof.
  apply (calculateTotalUsage_any_order
           [record (Some 3%Z) (Some 5%Z) active; record None None inactive]
           [record None None inactive; record (Some 3%Z) (Some 5%Z) active]).
  apply perm_swap.
Defined.

Lemma served_request_adds_one_to_the_total_witness :
  ApiKeyUtils.calculateTotalUsage
    (snd (run (GithubSummarizer.POST now (gated_request "pk_live_k1" repo))
              calm 0 [record (Some 3%Z) (Some 5%Z) active]))
  = (ApiKeyUtils.calculateTotalUsage [record (Some 3%Z) (Some 5%Z) active]
     + 1)%Z.
Proof.
  apply (served_request_adds_one_to_the_total
           now (gated_request "pk_live_k1" repo) calm 0
           [record (Some 3%Z) (Some 5%Z) active]).
  - unique.
  - evaluate.
  - reflexivity.
Defined.

Lemma valid_only_for_an_active_record_witness :
  exists apiKey r,
    key_input (Some (JObj (key_fields " pk_live_k1"))) apiKey
    /\ In r [record (Some 3%Z) (Some 5%Z) active]
    /\ key_value r = trim apiKey /\ status r = active
    /\ body (resp (fst (run (ValidateKey.POST
                               (Some (JObj (key_fields " pk_live_k1"))))
                            calm 0 [record (Some 3%Z) (Some 5%Z) active])))
       = JObj [("valid", JBool true); ("data", ValidateKey.key_data r)].
Proof.
  apply (valid_only_for_an_active_record
           (Some (JObj (key_fields " pk_live_k1"))) calm 0
           [record (Some 3%Z) (Some 5%Z) active]).
  evaluate.
Defined.

Lemma validation_ignores_surrounding_space_witness :
  ValidateKey.POST (Some (JObj (key_fields "  pk_live_k1 ")))
  = ValidateKey.POST (Some (JObj (key_fields "pk_live_k1"))).
Proof.
  apply (validation_ignores_surrounding_space
           (key_fields "  pk_live_k1 ") (key_fields "pk_live_k1")
           "  pk_live_k1 "); evaluate.
Defined.

Lemma summarizeGithubRepo_serves_a_valid_key_witness :
  GithubSummarizerUtils.success
    (fst (run (GithubSummarizerUtils.summarizeGithubRepo
                 now (Some (JStr " pk_live_k1")) (Some (JStr repo))
                 (JObj []) Delivered)
              calm 0 [record (Some 3%Z) (Some 5%Z) active]))
  = true.
Proof.
  rewrite (summarizeGithubRepo_serves_a_valid_key
             now " pk_live_k1" repo (JObj []) calm 0
             [record (Some 3%Z) (Some 5%Z) active]
             (record (Some 3%Z) (Some 5%Z) active)); evaluate.
Defined.

Lemma summarizeGithubRepo_checks_before_sending_witness :
  calls (GithubSummarizerUtils.summarizeGithubRepo
           now (Some (JStr "pk_live_k1"))
           (Some (JStr "http://github.com/a/b")) (JObj []) Delivered)
        calm 0 [record (Some 3%Z) (Some 5%Z) active]
  = [].
Proof.
  refine (proj1 (summarizeGithubRepo_checks_before_sending
                   now (Some (JStr "pk_live_k1"))
                   (Some (JStr "http://github.com/a/b")) (JObj []) Delivered
                   calm 0 [record (Some 3%Z) (Some 5%Z) active] _)).
  evaluate.
Defined.

Lemma blank_key_is_reported_missing_witness :
  run (ApiValidation.validateApiKey (Some (JStr "   ")) Delivered) calm 0
      [record (Some 3%Z) (Some 5%Z) active]
  = (ApiValidation.failed "API key is required and must be a string",
     [record (Some 3%Z) (Some 5%Z) active]).
Proof.
  refine (proj1 (proj1 (blank_key_is_reported_missing
                          now "   " repo (JObj []) calm 0
                          [record (Some 3%Z) (Some 5%Z) active] _ _ _)));
    evaluate.
Defined.

Lemma generated_key_survives_trimming_witness :
  trim (KeyGen.generateApiKey "Production Key" "4fzyo82mvyr" "i")
  = KeyGen.generateApiKey "Production Key" "4fzyo82mvyr" "i".
Proof.
  refine (proj1 (generated_key_survives_trimming
                   "Production Key" "4fzyo82mvyr" "i" _ _)); reflexivity.
Defined.

Lemma created_key_validates_witness :
  exists row,
    row = {| id := "a1b2"; name := "Staging";
             key_value := "pk_dev_4fzyo82mvyri"; status := active;
             usage_count := Some 0%Z; usage_limit := Some 1000%Z;
             created_at := db_now (calm 0); updated_at := db_now (calm 0) |}
    /\ table_after
         (createApiKey {| apiKeys := []; error := None; submitting := false |}
                       (calm 0) "a1b2"
                       (keyData_of_form "Staging" active 1000
                                        "4fzyo82mvyr" "i") [])
       = ([] ++ [row])%list
    /\ apiKeys
         (state_after
            (createApiKey
               {| apiKeys := []; error := None; submitting := false |}
               (calm 0) "a1b2"
               (keyData_of_form "Staging" active 1000 "4fzyo82mvyr" "i") []))
       = [Some row]
    /\ fst (run (ValidateKey.POST
                   (Some (JObj [("apiKey", JStr "pk_dev_4fzyo82mvyri")])))
                calm 0
                (table_after
                   (createApiKey
                      {| apiKeys := []; error := None; submitting := false |}
                      (calm 0) "a1b2"
                      (keyData_of_form "Staging" active 1000
                                       "4fzyo82mvyr" "i") [])))
       = {| resp := {| status_code := 200;
                       body := JObj [("valid", JBool true);
                                     ("data", ValidateKey.key_data row)] |};
            console := [] |}.
Proof.
  apply (created_key_validates
           {| apiKeys := []; error := None; submitting := false |}
           (calm 0) "a1b2"
           (keyData_of_form "Staging" active 1000 "4fzyo82mvyr" "i")
           [] calm 0); evaluate.
Defined.

Lemma duplicate_key_is_refused_witness :
  returned
    (createApiKey {| apiKeys := [Some (record (Some 3%Z) (Some 5%Z) active)];
                     error := None; submitting := false |}
                  (calm 0) "a1b2"
                  {| new_name := "Copy"; new_key_value := "pk_live_k1";
                     new_status := active; new_usage_count := Some 0%Z;
                     new_usage_limit := Some 10%Z |}
                  [record (Some 3%Z) (Some 5%Z) active])
  = false.
Proof.
  refine (proj1 (duplicate_key_is_refused
                   _ (calm 0) "a1b2" _
                   [record (Some 3%Z) (Some 5%Z) active]
                   (record (Some 3%Z) (Some 5%Z) active) _ _));
    [now left | reflexivity].
Defined.

Lemma deleted_key_no_longer_validates_witness :
  fst (run (ValidateKey.POST (Some (JObj (key_fields "pk_live_k1"))))
           calm 0
           (table_after
              (deleteApiKey
                 {| apiKeys := [Some (record (Some 3%Z) (Some 5%Z) active)];
                    error := None; submitting := false |}
                 (calm 0) "7f3c" [record (Some 3%Z) (Some 5%Z) active])))
  = {| resp := ValidateKey.failure 404 "Invalid API key"; console := [] |}.
Proof.
  refine (proj1 (deleted_key_no_longer_validates
                   _ (calm 0) [record (Some 3%Z) (Some 5%Z) active]
                   (record (Some 3%Z) (Some 5%Z) active)
                   (key_fields "pk_live_k1") "pk_live_k1" calm 0
                   _ _ _ _ _ _ _));
    try unique; try (now left); evaluate.
Defined.

Lemma update_rewrites_one_record_witness :
  exists before after,
    [record (Some 3%Z) (Some 5%Z) active]
    = (before ++ record (Some 3%Z) (Some 5%Z) active :: after)%list
    /\ table_after
         (updateApiKey
            {| apiKeys := [Some (record (Some 3%Z) (Some 5%Z) active)];
               error := None; submitting := false |}
            (calm 0) "7f3c"
            {| set_name := "Renamed"; set_status := inactive;
               set_usage_limit := Some 7%Z |}
            [record (Some 3%Z) (Some 5%Z) active])
       = (before
            ++ {| id := "7f3c"; name := "Renamed";
                  key_value := "pk_live_k1"; status := inactive;
                  usage_count := Some 3%Z; usage_limit := Some 7%Z;
                  created_at := "2024-01-01T00:00:00Z";
                  updated_at := db_now (calm 0) |}
            :: after)%list.
Proof.
  apply (update_rewrites_one_record
           {| apiKeys := [Some (record (Some 3%Z) (Some 5%Z) active)];
              error := None; submitting := false |}
           (calm 0)
           {| set_name := "Renamed"; set_status := inactive;
              set_usage_limit := Some 7%Z |}
           [record (Some 3%Z) (Some 5%Z) active]
           (record (Some 3%Z) (Some 5%Z) active));
    try unique; try (now left); reflexivity.
Defined.

Lemma hook_keeps_list_in_sync_witness :
  in_sync
    (table_after
       (perform (Delete "7f3c")
                {| apiKeys := [Some (record (Some 3%Z) (Some 5%Z) active)];
                   error := None; submitting := false |}
                (calm 0) [record (Some 3%Z) (Some 5%Z) active]))
    (state_after
       (perform (Delete "7f3c")
                {| apiKeys := [Some (record (Some 3%Z) (Some 5%Z) active)];
                   error := None; submitting := false |}
                (calm 0) [record (Some 3%Z) (Some 5%Z) active])).
Proof.
  refine (proj1 (hook_keeps_list_in_sync
                   (Delete "7f3c")
                   {| apiKeys := [Some (record (Some 3%Z) (Some 5%Z) active)];
                      error := None; submitting := false |}
                   (calm 0) [record (Some 3%Z) (Some 5%Z) active] _ _ _));
    unique.
Defined.

End MoreInstances.
